(** * torchdp/utils.py: replacing sub-modules of a [torch.nn] module tree

    A shallow embedding of [src/torchdp/utils.py].  Python objects live in a
    heap of cells addressed by reference, because the code under study
    mutates the [_modules] dictionary of a parent while a generator is
    still walking the tree, and hands references around.

    What belongs to PyTorch rather than to this file ([isinstance] over the
    [torch.nn] class hierarchy, [Module.named_modules], the constructors
    [nn.GroupNorm], [nn.InstanceNormNd], [nn.Identity]) is modelled after
    the PyTorch 1.x releases the repository was written for; each such
    definition says so. *)

From stdpp Require Import gmap strings list fin_maps.
From Stdlib Require Import ZArith Ascii String.

Local Open Scope string_scope.

(** ** Classes and [isinstance] *)

(** The part of the [torch.nn] class hierarchy the code mentions, closed
    under user-defined subclassing (single inheritance).  The bases are
    those of PyTorch 1.4 and later, where [_BatchNorm] and [_InstanceNorm]
    both derive from [_NormBase]; private bases the code never names (such
    as [_ConvNd]) are left out. *)
Inductive Class :=
  | Module_                      (* nn.Module *)
  | _NormBase
  | _BatchNorm                   (* nn.modules.batchnorm._BatchNorm *)
  | BatchNorm1d | BatchNorm2d | BatchNorm3d | SyncBatchNorm
  | _InstanceNorm
  | InstanceNorm1d | InstanceNorm2d | InstanceNorm3d
  | GroupNorm
  | Identity
  | Sequential | Linear | Conv2d
  | Subclass (name : string) (base : Class).   (* class name(base): ... *)

Global Instance Class_eq_dec : EqDecision Class.
Proof. solve_decision. Defined.

(** The direct base class; [nn.Module] derives from [object] only. *)
Definition base (c : Class) : option Class :=
  match c with
  | Module_ => None
  | _NormBase => Some Module_
  | _BatchNorm => Some _NormBase
  | BatchNorm1d | BatchNorm2d | BatchNorm3d | SyncBatchNorm => Some _BatchNorm
  | _InstanceNorm => Some _NormBase
  | InstanceNorm1d | InstanceNorm2d | InstanceNorm3d => Some _InstanceNorm
  | GroupNorm | Identity | Sequential | Linear | Conv2d => Some Module_
  | Subclass _ b => Some b
  end.

(** [type(x).__mro__], without [object]. *)
Fixpoint mro (c : Class) : list Class :=
  c :: match c with
       | Module_ => []
       | _NormBase => [Module_]
       | _BatchNorm => [_NormBase; Module_]
       | BatchNorm1d | BatchNorm2d | BatchNorm3d | SyncBatchNorm =>
           [_BatchNorm; _NormBase; Module_]
       | _InstanceNorm => [_NormBase; Module_]
       | InstanceNorm1d | InstanceNorm2d | InstanceNorm3d =>
           [_InstanceNorm; _NormBase; Module_]
       | GroupNorm | Identity | Sequential | Linear | Conv2d => [Module_]
       | Subclass _ b => mro b
       end.

(** [issubclass(c, target)]: [target] occurs in the method resolution order
    of [c]. *)
Definition issubclass (c target : Class) : bool :=
  bool_decide (target ∈ mro c).

(** ** Objects, references and the heap *)

Definition loc := positive.

(** A Python value that can sit in [_modules]: [None] or a reference to a
    module object. *)
Definition value := option loc.

(** The instance attributes the code reads; an attribute an object does
    not have is [None] here and raises [AttributeError] when read. *)
Record attrs := {
  __class__ : Class;
  num_features : option Z;
  num_groups : option Z;
  num_channels : option Z;
  affine : option bool
}.

(** A module object: its attributes and its [_modules] ordered dictionary,
    kept as an association list in insertion order. *)
Record nn_Module := {
  fields : attrs;
  _modules : list (string * value)
}.

Global Instance attrs_eq_dec : EqDecision attrs.
Proof. solve_decision. Defined.
Global Instance nn_Module_eq_dec : EqDecision nn_Module.
Proof. solve_decision. Defined.

Abbreviation heap := (gmap loc nn_Module).

(** ** Outcomes and the heap monad *)

Inductive exn := KeyError | AttributeError | TypeError | RuntimeError.

(** What stops the model itself rather than the Python program. *)
Inductive fault := OutOfFuel | DanglingRef.

Inductive outcome (A : Type) :=
  | Ok (a : A) (h : heap)
  | Raise (e : exn) (h : heap)
  | Abort (f : fault).
Arguments Ok {A} a h.
Arguments Raise {A} e h.
Arguments Abort {A} f.

Definition M (A : Type) := heap -> outcome A.

Definition ret {A} (a : A) : M A := fun h => Ok a h.
Definition raise {A} (e : exn) : M A := fun h => Raise e h.
Definition bind {A B} (m : M A) (k : A -> M B) : M B :=
  fun h => match m h with
           | Ok a h' => k a h'
           | Raise e h' => Raise e h'
           | Abort f => Abort f
           end.

Notation "'let!' x ':=' m 'in' k" := (bind m (fun x => k))
  (at level 10, x name, m at level 100, k at level 200, only parsing).

(** [obj.__dict__] of a live reference. *)
Definition deref (l : loc) : M nn_Module :=
  fun h => match h !! l with
           | Some o => Ok o h
           | None => Abort DanglingRef
           end.

(** [isinstance(v, target)]; [None] is an instance of no module class. *)
Definition isinstance (v : value) (target : Class) : M bool :=
  match v with
  | None => ret false
  | Some l => let! o := deref l in ret (issubclass (__class__ (fields o)) target)
  end.

(** [v._modules] *)
Definition get_modules (v : value) : M (list (string * value)) :=
  match v with
  | None => raise AttributeError
  | Some l => let! o := deref l in ret (_modules o)
  end.

(** [v.num_features] *)
Definition get_num_features (v : value) : M Z :=
  match v with
  | None => raise AttributeError
  | Some l =>
      let! o := deref l in
      match num_features (fields o) with
      | Some c => ret c
      | None => raise AttributeError
      end
  end.

(** ** Ordered dictionaries *)

(** [d[k]] *)
Fixpoint dict_get (d : list (string * value)) (k : string) : option value :=
  match d with
  | [] => None
  | (k', v) :: d' => if decide (k' = k) then Some v else dict_get d' k
  end.

(** [d[k] = v]: an existing key keeps its position, a new one goes last. *)
Fixpoint dict_set (d : list (string * value)) (k : string) (v : value)
  : list (string * value) :=
  match d with
  | [] => [(k, v)]
  | (k', v') :: d' =>
      if decide (k' = k) then (k, v) :: d' else (k', v') :: dict_set d' k v
  end.

Definition getitem (d : list (string * value)) (k : string) : M value :=
  match dict_get d k with
  | Some v => ret v
  | None => raise KeyError
  end.

(** [parent._modules[k] = v] *)
Definition setitem_modules (parent : value) (k : string) (v : value) : M unit :=
  match parent with
  | None => raise AttributeError
  | Some l =>
      let! o := deref l in
      fun h =>
        Ok tt (<[l := {| fields := fields o;
                         _modules := dict_set (_modules o) k v |}]> h)
  end.

(** ** Strings: [str.split(".")] and the dotted prefix of [named_modules] *)

Definition dot : ascii := "."%char.

(** [s.split(".")]: never empty; [split_dot "" = [""]]. *)
Fixpoint split_dot (s : string) : list string :=
  match s with
  | EmptyString => [EmptyString]
  | String c s' =>
      if decide (c = dot) then EmptyString :: split_dot s'
      else match split_dot s' with
           | [] => [String c EmptyString]
           | w :: ws => String c w :: ws
           end
  end.

(** [nameList[:-1]] *)
Definition init_names (names : list string) : list string := removelast names.

(** [nameList[-1]] *)
Definition last_name (names : list string) : string := List.last names "".

(** [prefix + ('.' if prefix else '') + name] *)
Definition submodule_prefix (prefix name : string) : string :=
  prefix ++ (if decide (prefix = "") then "" else ".") ++ name.

(** ** The functions of [utils.py] *)

(** A converter is a Python callable on a module reference: it reads the
    heap and may change it. *)
Definition converter := value -> M value.

(** The loop [for name in nameList[:-1]: parent = parent._modules[name]]. *)
Fixpoint walk (parent : value) (names : list string) : M value :=
  match names with
  | [] => ret parent
  | name :: names' =>
      let! d := get_modules parent in
      let! child := getitem d name in
      walk child names'
  end.

(** [_replace_child(root, child_name, converter)] *)
Definition _replace_child (root : value) (child_name : string)
    (conv : converter) : M unit :=
  let nameList := split_dot child_name in
  let! parent := walk root (init_names nameList) in
  let! d := get_modules parent in
  let! old := getitem d (last_name nameList) in
  let! new := conv old in
  setitem_modules parent (last_name nameList) new.

(** The body of the [for name, obj in root.named_modules()] loop. *)
Definition visit (root : value) (target_class : Class) (conv : converter)
    (name : string) (obj : loc) : M unit :=
  let! b := isinstance (Some obj) target_class in
  if b then _replace_child root name conv else ret tt.

(** [Module.named_modules(memo, prefix)] of PyTorch, driving a loop body.

    The generator yields [(prefix, self)] unless [self] is in [memo], then
    recurses into the children in dictionary order, skipping [None].  A
    [for] loop over the generator runs its body at every yield while the
    generator is suspended, so the body is passed in and run at the yield
    point; [memo] is threaded through.  The dictionary iterator keeps the
    keys it started with and fetches each value when it reaches the key,
    so a value stored under an existing key meanwhile is seen, and a
    change of the key set raises [RuntimeError].  [fuel] bounds the depth
    of the recursion. *)
Fixpoint items_loop (rec : loc -> gset loc -> string -> M (gset loc))
    (self : loc) (prefix : string) (keys todo : list string)
    (memo : gset loc) : M (gset loc) :=
  match todo with
  | [] => ret memo
  | name :: todo' =>
      let! d := get_modules (Some self) in
      if bool_decide (d.*1 = keys) then
        let! module := getitem d name in
        match module with
        | None => items_loop rec self prefix keys todo' memo
        | Some child =>
            let! memo' := rec child memo (submodule_prefix prefix name) in
            items_loop rec self prefix keys todo' memo'
        end
      else raise RuntimeError
  end.

Fixpoint named_modules_for (fuel : nat) (body : string -> loc -> M unit)
    (self : loc) (memo : gset loc) (prefix : string) : M (gset loc) :=
  match fuel with
  | O => fun _ => Abort OutOfFuel
  | S fuel' =>
      if decide (self ∈ memo) then ret memo
      else
        let! _ := body prefix self in
        let! d := get_modules (Some self) in
        items_loop (named_modules_for fuel' body) self prefix (d.*1) (d.*1)
                   ({[self]} ∪ memo)
  end.

(** [replace_all_modules(root, target_class, converter)] *)
Definition replace_all_modules (fuel : nat) (root : value)
    (target_class : Class) (conv : converter) : M value :=
  let! b := isinstance root target_class in
  if b then conv root
  else
    match root with
    | None => raise AttributeError          (* None.named_modules *)
    | Some r =>
        let! _ := named_modules_for fuel (visit root target_class conv) r ∅ "" in
        ret root
    end.

(** Allocation of a fresh object. *)
Definition alloc (o : nn_Module) : M value :=
  fun h => let l := fresh (dom h) in Ok (Some l) (<[l := o]> h).

(** [nn.GroupNorm(num_groups, num_channels, affine=affine)] of the PyTorch
    1.x releases the repository was written for: the constructor stores its
    arguments and has no sub-modules; it does not yet check that
    [num_groups] divides [num_channels]. *)
Definition GroupNorm_obj (groups channels : Z) (aff : bool) : nn_Module :=
  {| fields := {| __class__ := GroupNorm; num_features := None;
                  num_groups := Some groups; num_channels := Some channels;
                  affine := Some aff |};
     _modules := [] |}.

(** [nn.InstanceNormNd(num_features)] of PyTorch: [affine] defaults to
    [False]; no sub-modules. *)
Definition InstanceNorm_obj (cls : Class) (c : Z) : nn_Module :=
  {| fields := {| __class__ := cls; num_features := Some c;
                  num_groups := None; num_channels := None;
                  affine := Some false |};
     _modules := [] |}.

(** [nn.Identity()] *)
Definition Identity_obj : nn_Module :=
  {| fields := {| __class__ := Identity; num_features := None;
                  num_groups := None; num_channels := None;
                  affine := None |};
     _modules := [] |}.

(** The inner [matchDim()] of [batchnorm_to_instancenorm]; falling off the
    end of the [if] chain returns [None]. *)
Definition matchDim (module : value) : M (option Class) :=
  let! b1 := isinstance module BatchNorm1d in
  if b1 then ret (Some InstanceNorm1d)
  else
    let! b2 := isinstance module BatchNorm2d in
    if b2 then ret (Some InstanceNorm2d)
    else
      let! b3 := isinstance module BatchNorm3d in
      if b3 then ret (Some InstanceNorm3d)
      else ret None.

(** [batchnorm_to_instancenorm(module)]: the callee is evaluated first, the
    argument next; calling [None] raises [TypeError]. *)
Definition batchnorm_to_instancenorm : converter := fun module =>
  let! callee := matchDim module in
  let! c := get_num_features module in
  match callee with
  | None => raise TypeError
  | Some cls => alloc (InstanceNorm_obj cls c)
  end.

(** [batchnorm_to_groupnorm(module)] *)
Definition batchnorm_to_groupnorm : converter := fun module =>
  let! c1 := get_num_features module in
  let! c2 := get_num_features module in
  alloc (GroupNorm_obj (Z.min 32 c1) c2 false).

(** [nullify_batchnorm_modules(root, target_class)] *)
Definition nullify_batchnorm_modules (fuel : nat) (root : value)
    (target_class : Class) : M value :=
  replace_all_modules fuel root _BatchNorm (fun _ => alloc Identity_obj).

(** [replace_batchnorm(model)] *)
Definition replace_batchnorm (fuel : nat) (model : value) : M value :=
  replace_all_modules fuel model _BatchNorm batchnorm_to_groupnorm.

(** [outcome] without the heap: what the caller gets back. *)
Definition answer {A} (o : outcome A) : option (A + exn) :=
  match o with
  | Ok a _ => Some (inl a)
  | Raise e _ => Some (inr e)
  | Abort _ => None
  end.

(** ** The subclass relation of the class hierarchy *)


(** The three spatial ranks with a batch-norm and an instance-norm class. *)
Inductive rank := Rank1 | Rank2 | Rank3.

Definition BatchNormNd (r : rank) : Class :=
  match r with Rank1 => BatchNorm1d | Rank2 => BatchNorm2d | Rank3 => BatchNorm3d end.

Definition InstanceNormNd (r : rank) : Class :=
  match r with
  | Rank1 => InstanceNorm1d | Rank2 => InstanceNorm2d | Rank3 => InstanceNorm3d
  end.

(** The converters this file hands to [replace_all_modules]. *)
Inductive provided := ToGroupNorm | ToInstanceNorm | ToIdentity.

Definition provided_converter (p : provided) : converter :=
  match p with
  | ToGroupNorm => batchnorm_to_groupnorm
  | ToInstanceNorm => batchnorm_to_instancenorm
  | ToIdentity => fun _ => alloc Identity_obj
  end.

(** The wrapper as the specification words it: a call of
    [replace_all_modules] on the batch-norm base class with a converter
    that returns a new [Identity]; no [target_class] involved. *)
Definition nullify_spec (fuel : nat) (root : value) : M value :=
  replace_all_modules fuel root _BatchNorm (fun _ => alloc Identity_obj).

(** ** Module trees laid out in the heap *)

(** A tree of modules with the address of every node: the shape a model
    has when every child is owned by one parent. *)
#[warnings="-register-all"]
Inductive tree :=
  Node (l : loc) (a : attrs) (kids : list (string * option tree)).

Definition root_loc (t : tree) : loc := match t with Node l _ _ => l end.
Definition tattrs (t : tree) : attrs := match t with Node _ a _ => a end.
Definition tkids (t : tree) : list (string * option tree) :=
  match t with Node _ _ kids => kids end.

(** The [_modules] entry of a child: its name and a reference or [None]. *)
Definition entry (kv : string * option tree) : string * value :=
  (kv.1, root_loc <$> kv.2).

Definition cell_of (t : tree) : nn_Module :=
  {| fields := tattrs t; _modules := entry <$> tkids t |}.

Definition under {A} (f : tree -> list A) (kv : string * option tree) : list A :=
  match kv.2 with Some t => f t | None => [] end.

(** Every node with its heap cell, parents before children. *)
Fixpoint cells (t : tree) : list (loc * nn_Module) :=
  match t with
  | Node l a kids =>
      (l, {| fields := a; _modules := entry <$> kids |})
        :: flat_map (under cells) kids
  end.

Definition locs (t : tree) : list loc := (cells t).*1.

Definition kid_depth (f : tree -> nat) (kv : string * option tree) : nat :=
  match kv.2 with Some t => f t | None => 0 end.

Fixpoint depth (t : tree) : nat :=
  match t with
  | Node _ _ kids => S (max_list (kid_depth depth <$> kids))
  end.

(** [add_module] accepts a child name only if it is not empty and has no
    dot in it. *)
Fixpoint dotfree (s : string) : bool :=
  match s with
  | EmptyString => true
  | String c s' => if decide (c = dot) then false else dotfree s'
  end.

Definition valid_name (k : string) : Prop := k ≠ "" ∧ dotfree k = true.

(** A cell whose [_modules] is a dictionary built by [add_module]. *)
Definition cell_ok (c : nn_Module) : Prop :=
  NoDup (_modules c).*1 ∧ Forall valid_name (_modules c).*1.

(** The heap holds the tree. *)
Definition in_heap (h : heap) (t : tree) : Prop :=
  Forall (fun lc : loc * nn_Module => h !! lc.1 = Some lc.2) (cells t).

(** No node is shared and every dictionary is well formed. *)
Definition wf (t : tree) : Prop :=
  NoDup (locs t) ∧ Forall (fun lc : loc * nn_Module => cell_ok lc.2) (cells t).

(** [isinstance] on a cell. *)
Definition matches (X : Class) (c : nn_Module) : bool :=
  issubclass (__class__ (fields c)) X.

(** The nodes [isinstance] selects, in traversal order. *)
Definition matching (X : Class) (t : tree) : list (loc * nn_Module) :=
  filter (fun lc : loc * nn_Module => matches X lc.2 = true) (cells t).

Definition heap_of (t : tree) : heap := list_to_map (cells t).

Fixpoint kid_get (kids : list (string * option tree)) (k : string)
  : option (option tree) :=
  match kids with
  | [] => None
  | (k', ot) :: kids' => if decide (k' = k) then Some ot else kid_get kids' k
  end.

(** The node a path of child names leads to. *)
Fixpoint subtree_at (t : tree) (p : list string) : option tree :=
  match p with
  | [] => Some t
  | k :: p' =>
      match kid_get (tkids t) k with
      | Some (Some t') => subtree_at t' p'
      | _ => None
      end
  end.

(** The dotted name [named_modules] gives to a path. *)
Definition join_path (p : list string) : string := foldl submodule_prefix "" p.

(** *** One-hole contexts *)

(** A node with one child slot singled out. *)
Record frame := Frame {
  f_loc : loc;
  f_attrs : attrs;
  f_before : list (string * option tree);
  f_key : string;
  f_after : list (string * option tree)
}.

Definition fill (F : frame) (ot : option tree) : tree :=
  Node (f_loc F) (f_attrs F) (f_before F ++ (f_key F, ot) :: f_after F).

(** A context is the list of frames from the hole outwards. *)
Fixpoint plug (C : list frame) (t : tree) : tree :=
  match C with
  | [] => t
  | F :: C' => plug C' (fill F (Some t))
  end.

Definition ctx_path (C : list frame) : list string := rev (f_key <$> C).

Definition frame_cell (F : frame) (v : value) : nn_Module :=
  {| fields := f_attrs F;
     _modules := (entry <$> f_before F) ++ (f_key F, v) :: (entry <$> f_after F) |}.

Definition side_cells (F : frame) : list (loc * nn_Module) :=
  flat_map (under cells) (f_before F) ++ flat_map (under cells) (f_after F).

(** The cells of a context around a hole that holds the object [l]. *)
Fixpoint ctx_cells (C : list frame) (l : loc) : list (loc * nn_Module) :=
  match C with
  | [] => []
  | F :: C' =>
      (f_loc F, frame_cell F (Some l)) :: side_cells F ++ ctx_cells C' (f_loc F)
  end.

(** ** Traversals *)

Abbreviation kid_cells := (flat_map (under cells)).

(** Some cell of the list is hit. *)
Definition hits (hit : nn_Module -> bool) (cs : list (loc * nn_Module)) : Prop :=
  Exists (fun lc : loc * nn_Module => hit lc.2 = true) cs.

(** A traversal whose loop body raises [e] at a hit and does nothing
    elsewhere: it stops at the first hit and otherwise only records what it
    has seen. *)
Definition swept (h : heap) (e : exn) (hit : nn_Module -> bool)
    (cs : list (loc * nn_Module)) (memo : gset loc) : outcome (gset loc) :=
  if decide (hits hit cs) then Raise e h else Ok (list_to_set cs.*1 ∪ memo) h.

Definition sweeps (body : string -> loc -> M unit) (h : heap) (e : exn)
    (hit : nn_Module -> bool) (Q : string -> Prop) (known : nn_Module -> Prop)
    (fuel : nat) : Prop :=
  forall s memo p,
    (depth s <= fuel)%nat -> in_heap h s -> wf s ->
    Forall (fun lc : loc * nn_Module => known lc.2) (cells s) ->
    (forall l, l ∈ locs s -> l ∉ memo) -> Q p ->
    named_modules_for fuel body (root_loc s) memo p h = swept h e hit (cells s) memo.

(** A list of children that sit in the heap, none of them with a selected
    node. *)
Record quiet_forest (h : heap) (X : Class) (fuel : nat)
    (todo : list (string * option tree)) : Prop := {
  qf_names : Forall valid_name todo.*1;
  qf_depth : Forall (fun kv => (kid_depth depth kv <= fuel)%nat) todo;
  qf_heap : Forall (fun lc : loc * nn_Module => h !! lc.1 = Some lc.2)
                   (kid_cells todo);
  qf_nodup : NoDup (kid_cells todo).*1;
  qf_ok : Forall (fun lc : loc * nn_Module => cell_ok lc.2) (kid_cells todo);
  qf_quiet : Forall (fun lc : loc * nn_Module => matches X lc.2 = false)
                    (kid_cells todo)
}.



(** *** Deciding the hypotheses on concrete models *)

Global Instance valid_name_dec k : Decision (valid_name k).
Proof. unfold valid_name. apply _. Defined.
Global Instance cell_ok_dec c : Decision (cell_ok c).
Proof. unfold cell_ok. apply _. Defined.
Global Instance in_heap_dec h t : Decision (in_heap h t).
Proof. unfold in_heap. apply _. Defined.
Global Instance wf_dec t : Decision (wf t).
Proof. unfold wf. apply _. Defined.

(** ** Concrete models used in the examples below *)

Definition plain (c : Class) : attrs :=
  {| __class__ := c; num_features := None; num_groups := None;
     num_channels := None; affine := None |}.

Definition norm (c : Class) (n : Z) : attrs :=
  {| __class__ := c; num_features := Some n; num_groups := None;
     num_channels := None; affine := Some true |}.

(** [root{a: BN(10), b{c: BN(20)}}] *)
Definition model_two_bn : tree :=
  Node 1%positive (plain Sequential)
    [("a", Some (Node 2%positive (norm BatchNorm2d 10) []));
     ("b", Some (Node 3%positive (plain Sequential)
                  [("c", Some (Node 4%positive (norm BatchNorm2d 20) []))]))].

(** [root{a: Sequential{b: Linear}, c: Linear}] *)
Definition model_seq : tree :=
  Node 1%positive (plain (Subclass "Net" Module_))
    [("a", Some (Node 2%positive (plain Sequential)
                  [("b", Some (Node 3%positive (plain Linear) []))]));
     ("c", Some (Node 4%positive (plain Linear) []))].

(** A single [BatchNorm2d(16)]. *)
Definition model_bn16 : tree := Node 1%positive (norm BatchNorm2d 16) [].

(** A single [SyncBatchNorm(16)]. *)
Definition model_sync : tree := Node 1%positive (norm SyncBatchNorm 16) [].

(** A batch-norm module that was given a batch-norm child. *)
Definition model_nested : tree :=
  Node 1%positive (plain Sequential)
    [("a", Some (Node 2%positive (norm BatchNorm2d 8)
                  [("b", Some (Node 3%positive (norm BatchNorm2d 8) []))]))].

(** Not a tree: one [BatchNorm2d] registered under two names of the root. *)
Definition heap_shared : heap :=
  list_to_map
    [(1%positive, {| fields := plain Sequential;
                     _modules := [("a", Some 2%positive); ("b", Some 2%positive)] |});
     (2%positive, {| fields := norm BatchNorm2d 8; _modules := [] |})].

(** ** What a pass over the tree keeps and what it leaves behind *)

(** Every object of [h] is still in [h'], with the attributes and the child
    names, in their order, that it had. *)
Definition stable (h h' : heap) : Prop :=
  forall l c, h !! l = Some c ->
    exists c', h' !! l = Some c' /\ fields c' = fields c /\
               (_modules c').*1 = (_modules c).*1.

(** An outcome that kept the objects of [h] and, if it is an exception, one
    of [E]. *)
Definition post {A} (E : exn -> Prop) (h : heap) (o : outcome A) : Prop :=
  match o with
  | Ok _ h' => stable h h'
  | Raise e h' => stable h h' /\ E e
  | Abort _ => True
  end.

(** The exceptions of resolving a dotted name: a missing key, or the
    [_modules] of [None]. *)
Definition lookup_error (e : exn) : Prop := e = KeyError \/ e = AttributeError.

(** [f] holds of the child, if there is one. *)
Definition kid_all (f : tree -> bool) (kv : string * option tree) : bool :=
  match kv.2 with Some t => f t | None => true end.

(** No selected node has a selected node below it. *)
Fixpoint unnested (X : Class) (t : tree) : bool :=
  match t with
  | Node l a kids =>
      if issubclass (__class__ a) X
      then forallb (fun lc : loc * nn_Module => negb (matches X lc.2))
                   (flat_map (under cells) kids)
      else forallb (kid_all (unnested X)) kids
  end.

(** The tree a pass leaves behind: a selected node has given way to a
    childless node at an address outside [old], with the attributes [mk]
    computes from the selected one; any other node is where it was, with its
    attributes and with the same child names in the same order. *)
#[warnings="-register-all"]
Inductive rewritten (X : Class) (mk : nn_Module -> option nn_Module)
    (old : gset loc) : tree -> tree -> Prop :=
  | rewritten_hit l a kids l' o :
      issubclass (__class__ a) X = true ->
      mk {| fields := a; _modules := entry <$> kids |} = Some o ->
      l' ∉ old ->
      rewritten X mk old (Node l a kids) (Node l' (fields o) [])
  | rewritten_miss l a kids kids' :
      issubclass (__class__ a) X = false ->
      Forall2 (fun kv kv' : string * option tree =>
                 kv.1 = kv'.1 /\
                 option_Forall2 (rewritten X mk old) kv.2 kv'.2)
              kids kids' ->
      rewritten X mk old (Node l a kids) (Node l a kids').

(** Every selected node of the tree is one [mk] has an answer for. *)
Definition convertible (X : Class) (mk : nn_Module -> option nn_Module)
    (t : tree) : Prop :=
  Forall (fun lc : loc * nn_Module =>
            matches X lc.2 = true -> is_Some (mk lc.2)) (cells t).

(** The node [batchnorm_to_groupnorm] builds from a node, if the node has
    [num_features]. *)
Definition groupnorm_of (c : nn_Module) : option nn_Module :=
  match num_features (fields c) with
  | Some n => Some (GroupNorm_obj (Z.min 32 n) n false)
  | None => None
  end.

(** The node [batchnorm_to_instancenorm] builds from a node, if the node
    has [num_features] and is under one of the three ranked classes. *)
Definition instancenorm_of (c : nn_Module) : option nn_Module :=
  match num_features (fields c) with
  | Some n =>
      if issubclass (__class__ (fields c)) BatchNorm1d
      then Some (InstanceNorm_obj InstanceNorm1d n)
      else if issubclass (__class__ (fields c)) BatchNorm2d
      then Some (InstanceNorm_obj InstanceNorm2d n)
      else if issubclass (__class__ (fields c)) BatchNorm3d
      then Some (InstanceNorm_obj InstanceNorm3d n)
      else None
  | None => None
  end.

(** The node the converter of [nullify_batchnorm_modules] builds. *)
Definition identity_of (c : nn_Module) : option nn_Module := Some Identity_obj.

(** The node a converter of this file builds from a node, if it builds
    one. *)
Definition provided_node (p : provided) (c : nn_Module) : option nn_Module :=
  match p with
  | ToGroupNorm => groupnorm_of c
  | ToInstanceNorm => instancenorm_of c
  | ToIdentity => identity_of c
  end.

(** What a traversal of the subtree [s] in the hole of [C] comes to with a
    converter that answers a selected node with a new childless node: if no
    selected node of [s] has a selected node below it, the heap holds the
    context around the rewritten subtree, and the objects outside the tree
    are as they were; otherwise the traversal stops with a [KeyError]. *)
Definition pass_result (X : Class) (mk : nn_Module -> option nn_Module)
    (old : gset loc) (fuel : nat) (C : list frame) (s : tree) (h : heap)
    (memo : gset loc) (res : outcome (gset loc)) : Prop :=
  if unnested X s then
    (exists h' s',
      res = Ok (list_to_set (locs s) ∪ memo) h' /\
      in_heap h' (plug C s') /\ wf (plug C s') /\
      rewritten X mk old s s' /\
      Forall (fun lc : loc * nn_Module => matches X lc.2 = false) (cells s') /\
      (depth s' <= fuel)%nat /\
      root_loc (plug C s') = root_loc (plug C s) /\
      (forall l, l ∈ dom h -> l ∈ dom h') /\
      (forall l, l ∈ dom h -> l ∉ locs (plug C s) -> h' !! l = h !! l) /\
      (forall l, l ∈ locs (plug C s') -> l ∈ dom h -> l ∈ locs (plug C s)))
  else exists h', res = Raise KeyError h'.

(** Every traversal with [fuel] for the depth of its subtree comes to such a
    result. *)
Definition passes (X : Class) (conv : converter)
    (mk : nn_Module -> option nn_Module) (old : gset loc) (fuel : nat) : Prop :=
  forall C s (h : heap) memo,
    (depth s <= fuel)%nat -> in_heap h (plug C s) -> wf (plug C s) ->
    (C = [] -> matches X (cell_of s) = false) ->
    (forall l, l ∈ locs s -> l ∉ memo) ->
    convertible X mk s -> (forall l, l ∈ old -> l ∈ dom h) ->
    pass_result X mk old fuel C s h memo
      (named_modules_for fuel (visit (Some (root_loc (plug C s))) X conv)
         (root_loc s) memo (join_path (ctx_path C)) h).

(** *** A container whose children are shared *)

(** A child of the container [r] that is not [r] itself is a childless
    object of the heap that [mk] has an answer for if it is selected. *)
Definition leaf_child (X : Class) (mk : nn_Module -> option nn_Module)
    (h : heap) (r : loc) (kv : string * value) : Prop :=
  match kv.2 with
  | Some l =>
      l ≠ r ->
      exists c, h !! l = Some c /\ _modules c = [] /\
                (matches X c = true -> is_Some (mk c))
  | None => True
  end.

(** What a pass makes of the dictionary [d] of a container: a selected
    object gives way to a new one under the first name that holds it, and
    stays under every later name; [seen] are the objects met so far. *)
Fixpoint replaced_once (X : Class) (mk : nn_Module -> option nn_Module)
    (h h' : heap) (seen : gset loc) (d d' : list (string * value)) : Prop :=
  match d, d' with
  | [], [] => True
  | (k, v) :: d1, (k', v') :: d1' =>
      k' = k /\
      match v with
      | None => v' = None /\ replaced_once X mk h h' seen d1 d1'
      | Some l =>
          (if decide (l ∈ seen) then v' = Some l
           else match h !! l with
                | Some c =>
                    if matches X c
                    then exists l' o,
                           v' = Some l' /\ l' ∉ dom h /\
                           mk c = Some o /\ h' !! l' = Some o
                    else v' = Some l
                | None => False
                end) /\
          replaced_once X mk h h' ({[l]} ∪ seen) d1 d1'
      end
  | _, _ => False
  end.

(** A [Sequential] that holds one [BatchNorm2d] under two names, around a
    [Linear]. *)
Definition heap_twice : heap :=
  list_to_map
    [(1%positive, {| fields := plain Sequential;
                     _modules := [("0", Some 2%positive); ("1", Some 3%positive);
                                  ("2", Some 2%positive)] |});
     (2%positive, {| fields := norm BatchNorm2d 8; _modules := [] |});
     (3%positive, {| fields := plain Linear; _modules := [] |})].

Global Instance convertible_dec X mk t : Decision (convertible X mk t).
Proof. unfold convertible. apply _. Defined.

(** A root with a child registered as [None] and a [Linear] child. *)
Definition model_none : tree :=
  Node 1%positive (plain Sequential)
    [("a", None); ("b", Some (Node 2%positive (plain Linear) []))].

(** * Proofs *)

(** ** The class hierarchy *)






Lemma issubclass_Subclass n b t :
  t ≠ Subclass n b -> issubclass (Subclass n b) t = issubclass b t.
Proof.
  intros Hne. unfold issubclass. apply bool_decide_ext. simpl.
  rewrite elem_of_cons. split; [by intros [?|?] | auto].
Qed.

(** With single inheritance a class sits under at most one of the three
    ranked batch-norm classes. *)
Lemma rank_unique c r r' :
  issubclass c (BatchNormNd r) = true ->
  issubclass c (BatchNormNd r') = true -> r = r'.
Proof.
  induction c; intros H1 H2;
    try (destruct r, r'; (reflexivity || (vm_compute in H1, H2; congruence))).
  rewrite issubclass_Subclass in H1 by (by destruct r).
  rewrite issubclass_Subclass in H2 by (by destruct r').
  auto.
Qed.

(** ** Reading the heap *)

Lemma fresh_not_in (h : heap) : fresh (dom h) ∉ dom h.
Proof. apply is_fresh. Qed.

Lemma fresh_lookup (h : heap) : h !! fresh (dom h) = None.
Proof. apply not_elem_of_dom, fresh_not_in. Qed.

Lemma alloc_frame (h : heap) o l :
  l ∈ dom h -> (<[fresh (dom h) := o]> h) !! l = h !! l.
Proof.
  intros Hl. apply lookup_insert_ne. intros <-. by apply (fresh_not_in h).
Qed.

Lemma isinstance_Some h l o X :
  h !! l = Some o ->
  isinstance (Some l) X h = Ok (matches X o) h.
Proof. intros Hl. unfold isinstance, bind, deref. by rewrite Hl. Qed.

Lemma get_modules_Some h l o :
  h !! l = Some o -> get_modules (Some l) h = Ok (_modules o) h.
Proof. intros Hl. unfold get_modules, bind, deref. by rewrite Hl. Qed.

Lemma get_num_features_Some h l o c :
  h !! l = Some o -> num_features (fields o) = Some c ->
  get_num_features (Some l) h = Ok c h.
Proof.
  intros Hl Hc. unfold get_num_features, bind, deref. by rewrite Hl, Hc.
Qed.

Lemma matchDim_ranked h l o r :
  h !! l = Some o ->
  issubclass (__class__ (fields o)) (BatchNormNd r) = true ->
  matchDim (Some l) h = Ok (Some (InstanceNormNd r)) h.
Proof.
  intros Hl Hr. unfold matchDim, bind.
  assert (Hother : forall r', r' ≠ r ->
            matches (BatchNormNd r') o = false).
  { intros r' Hne. apply not_true_is_false. intros Hr'.
    apply Hne. eapply rank_unique; eauto. }
  pose proof (Hother Rank1) as H1. pose proof (Hother Rank2) as H2.
  simpl in H1, H2.
  rewrite (isinstance_Some _ _ _ BatchNorm1d Hl).
  destruct r; simpl in Hr.
  - unfold matches. by rewrite Hr.
  - rewrite H1 by done.
    rewrite (isinstance_Some _ _ _ BatchNorm2d Hl).
    unfold matches. by rewrite Hr.
  - rewrite H1 by done.
    rewrite (isinstance_Some _ _ _ BatchNorm2d Hl).
    rewrite H2 by done.
    rewrite (isinstance_Some _ _ _ BatchNorm3d Hl).
    unfold matches. by rewrite Hr.
Qed.

Lemma matchDim_unranked h l o :
  h !! l = Some o ->
  (forall r, issubclass (__class__ (fields o)) (BatchNormNd r) = false) ->
  matchDim (Some l) h = Ok None h.
Proof.
  intros Hl Hr. unfold matchDim, bind.
  rewrite (isinstance_Some _ _ _ BatchNorm1d Hl).
  pose proof (Hr Rank1) as H1. pose proof (Hr Rank2) as H2.
  pose proof (Hr Rank3) as H3. simpl in H1, H2, H3.
  unfold matches at 1. rewrite H1.
  rewrite (isinstance_Some _ _ _ BatchNorm2d Hl).
  unfold matches at 1. rewrite H2.
  rewrite (isinstance_Some _ _ _ BatchNorm3d Hl).
  unfold matches at 1. by rewrite H3.
Qed.

(** ** The converters *)

(** C3: on a node with channel count [c], [batchnorm_to_groupnorm] returns a
    new [GroupNorm] node with [min(32, c)] groups, [c] channels and affine
    scaling off; nothing else in the heap changes. *)
Theorem batchnorm_to_groupnorm_spec (h : heap) l o c :
  h !! l = Some o ->
  num_features (fields o) = Some c ->
  batchnorm_to_groupnorm (Some l) h =
    Ok (Some (fresh (dom h)))
       (<[fresh (dom h) :=
            {| fields := {| __class__ := GroupNorm; num_features := None;
                            num_groups := Some (Z.min 32 c);
                            num_channels := Some c;
                            affine := Some false |};
               _modules := [] |}]> h).
Proof.
  intros Hl Hc. unfold batchnorm_to_groupnorm, bind.
  rewrite (get_num_features_Some _ _ _ _ Hl Hc).
  rewrite (get_num_features_Some _ _ _ _ Hl Hc).
  reflexivity.
Qed.

Lemma batchnorm_to_groupnorm_witness :
  let h := heap_of model_bn16 in
  batchnorm_to_groupnorm (Some 1%positive) h =
    Ok (Some 2%positive) (<[2%positive := GroupNorm_obj 16 16 false]> h).
Proof.
  exact (batchnorm_to_groupnorm_spec (heap_of model_bn16) 1%positive
           (cell_of model_bn16) 16 eq_refl eq_refl).
Defined.

Example groupnorm_64_channels :
  batchnorm_to_groupnorm (Some 1%positive)
    (heap_of (Node 1%positive (norm BatchNorm2d 64) []))
  = alloc (GroupNorm_obj 32 64 false)
      (heap_of (Node 1%positive (norm BatchNorm2d 64) [])).
Proof. reflexivity. Qed.

Example groupnorm_8_channels :
  batchnorm_to_groupnorm (Some 1%positive)
    (heap_of (Node 1%positive (norm BatchNorm1d 8) []))
  = alloc (GroupNorm_obj 8 8 false)
      (heap_of (Node 1%positive (norm BatchNorm1d 8) [])).
Proof. reflexivity. Qed.

(** C7: on a batch-norm node of rank 1, 2 or 3 with channel count [c],
    [batchnorm_to_instancenorm] returns a new instance-norm node of the same
    rank with channel count [c]. *)
Theorem batchnorm_to_instancenorm_spec (h : heap) l o c r :
  h !! l = Some o ->
  issubclass (__class__ (fields o)) (BatchNormNd r) = true ->
  num_features (fields o) = Some c ->
  batchnorm_to_instancenorm (Some l) h =
    Ok (Some (fresh (dom h)))
       (<[fresh (dom h) :=
            {| fields := {| __class__ := InstanceNormNd r;
                            num_features := Some c;
                            num_groups := None; num_channels := None;
                            affine := Some false |};
               _modules := [] |}]> h).
Proof.
  intros Hl Hr Hc. unfold batchnorm_to_instancenorm, bind.
  rewrite (matchDim_ranked _ _ _ _ Hl Hr).
  by rewrite (get_num_features_Some _ _ _ _ Hl Hc).
Qed.

Lemma batchnorm_to_instancenorm_witness :
  let h := heap_of model_bn16 in
  batchnorm_to_instancenorm (Some 1%positive) h =
    Ok (Some 2%positive) (<[2%positive := InstanceNorm_obj InstanceNorm2d 16]> h).
Proof.
  exact (batchnorm_to_instancenorm_spec (heap_of model_bn16) 1%positive
           (cell_of model_bn16) 16 Rank2 eq_refl eq_refl eq_refl).
Defined.

(** C8: on a node that is under none of the three ranked batch-norm
    classes, [matchDim] falls through and returns [None], and the
    conversion raises instead of returning a node: [TypeError] from calling
    [None], or [AttributeError] if the node has no [num_features]. *)
Theorem batchnorm_to_instancenorm_unranked (h : heap) l o :
  h !! l = Some o ->
  (forall r, issubclass (__class__ (fields o)) (BatchNormNd r) = false) ->
  matchDim (Some l) h = Ok None h /\
  batchnorm_to_instancenorm (Some l) h =
    Raise (match num_features (fields o) with
           | Some _ => TypeError
           | None => AttributeError
           end) h.
Proof.
  intros Hl Hr. split; [by apply (matchDim_unranked _ _ o)|].
  unfold batchnorm_to_instancenorm, bind.
  rewrite (matchDim_unranked _ _ _ Hl Hr).
  unfold get_num_features, bind, deref. rewrite Hl.
  by destruct (num_features (fields o)).
Qed.

Lemma batchnorm_to_instancenorm_unranked_witness :
  let h := heap_of model_sync in
  matchDim (Some 1%positive) h = Ok None h /\
  batchnorm_to_instancenorm (Some 1%positive) h = Raise TypeError h.
Proof.
  apply (batchnorm_to_instancenorm_unranked (heap_of model_sync) 1%positive
           (cell_of model_sync)).
  - reflexivity.
  - intros r. destruct r; reflexivity.
Defined.

(** ** [replace_all_modules]: selection and the root case *)

Lemma replace_selected_root fuel l o X conv (h : heap) :
  h !! l = Some o -> matches X o = true ->
  replace_all_modules fuel (Some l) X conv h = conv (Some l) h.
Proof.
  intros Hl Hm. unfold replace_all_modules, bind.
  by rewrite (isinstance_Some _ _ _ X Hl), Hm.
Qed.

(** C4: when the root is selected, the call is the converter applied to the
    root and nothing more: no traversal (the result does not depend on the
    fuel of the traversal, not even at fuel 0), no path resolution, and a
    single converter call. *)
Theorem root_match_returns_converted fuel root X conv (h : heap) :
  isinstance root X h = Ok true h ->
  replace_all_modules fuel root X conv h = conv root h.
Proof. intros Hi. unfold replace_all_modules, bind. by rewrite Hi. Qed.

Lemma root_match_returns_converted_witness :
  let h := heap_of model_nested in
  isinstance (Some 2%positive) _BatchNorm h = Ok true h /\
  replace_all_modules 0 (Some 2%positive) _BatchNorm batchnorm_to_groupnorm h
  = batchnorm_to_groupnorm (Some 2%positive) h.
Proof.
  split; [reflexivity|].
  apply (root_match_returns_converted 0 (Some 2%positive) _BatchNorm
           batchnorm_to_groupnorm (heap_of model_nested)).
  reflexivity.
Defined.




(** C2: the wrapper is [replace_all_modules] on [_BatchNorm] with a converter
    that returns a new [Identity], whatever [target_class] it is given. *)
Theorem nullify_ignores_target_class fuel root target_class (h : heap) :
  nullify_batchnorm_modules fuel root target_class h = nullify_spec fuel root h
  /\ forall target_class',
       nullify_batchnorm_modules fuel root target_class' h
       = nullify_batchnorm_modules fuel root target_class h.
Proof. split; reflexivity. Qed.

(** [matchDim] on an object of the heap: the first of the three ranked
    classes the object is under decides, and none of them gives [None]. *)
Lemma matchDim_cases (h : heap) l o :
  h !! l = Some o ->
  matchDim (Some l) h =
    Ok (if issubclass (__class__ (fields o)) BatchNorm1d
        then Some InstanceNorm1d
        else if issubclass (__class__ (fields o)) BatchNorm2d
        then Some InstanceNorm2d
        else if issubclass (__class__ (fields o)) BatchNorm3d
        then Some InstanceNorm3d
        else None) h.
Proof.
  intros Hl. unfold matchDim, bind.
  rewrite (isinstance_Some _ _ _ BatchNorm1d Hl). unfold matches at 1.
  destruct (issubclass (__class__ (fields o)) BatchNorm1d); [done|].
  rewrite (isinstance_Some _ _ _ BatchNorm2d Hl). unfold matches at 1.
  destruct (issubclass (__class__ (fields o)) BatchNorm2d); [done|].
  rewrite (isinstance_Some _ _ _ BatchNorm3d Hl). unfold matches at 1.
  by destruct (issubclass (__class__ (fields o)) BatchNorm3d).
Qed.

(** C10, as the code has it: with a converter of this file and a selected
    root, the root object is never written to.  When the converter builds a
    node from the root (always for the [Identity] lambda; when the root has
    [num_features] for [batchnorm_to_groupnorm]; when it has [num_features]
    and is under [BatchNorm1d], [BatchNorm2d] or [BatchNorm3d] for
    [batchnorm_to_instancenorm]), the call returns that node at a new
    address, which is not the root's; the node has no children, and every
    object that was in the heap, the root among them, is as it was.  When
    the converter builds no node, the call returns nothing: it raises
    [AttributeError] (no [num_features]) or [TypeError] (no ranked class)
    and the heap is the one it started from. *)
Theorem provided_converters_leave_root_alone p fuel (h : heap) l o X :
  h !! l = Some o ->
  matches X o = true ->
  match provided_node p o with
  | Some o' =>
      replace_all_modules fuel (Some l) X (provided_converter p) h
      = Ok (Some (fresh (dom h))) (<[fresh (dom h) := o']> h) /\
      fresh (dom h) ∉ dom h /\ fresh (dom h) ≠ l /\
      _modules o' = [] /\
      (<[fresh (dom h) := o']> h) !! l = Some o /\
      (forall l0, l0 ∈ dom h -> (<[fresh (dom h) := o']> h) !! l0 = h !! l0)
  | None =>
      replace_all_modules fuel (Some l) X (provided_converter p) h
      = Raise (match num_features (fields o) with
               | Some _ => TypeError
               | None => AttributeError
               end) h
  end.
Proof.
  intros Hl Hm.
  rewrite (replace_selected_root fuel l o X _ h Hl Hm).
  assert (l ∈ dom h) as Hld by (apply elem_of_dom; by exists o).
  assert (Hal : forall o', _modules o' = [] ->
    alloc o' h = Ok (Some (fresh (dom h))) (<[fresh (dom h) := o']> h) /\
    fresh (dom h) ∉ dom h /\ fresh (dom h) ≠ l /\
    _modules o' = [] /\
    (<[fresh (dom h) := o']> h) !! l = Some o /\
    (forall l0, l0 ∈ dom h -> (<[fresh (dom h) := o']> h) !! l0 = h !! l0)).
  { intros o' Ho'. split; [done|]. split; [apply fresh_not_in|].
    split; [intros Heq; apply (fresh_not_in h); by rewrite Heq|].
    split; [done|]. split; [by rewrite alloc_frame|].
    intros l0. apply alloc_frame. }
  destruct p; simpl.
  - unfold groupnorm_of.
    destruct (num_features (fields o)) as [c|] eqn:Hc.
    + unfold batchnorm_to_groupnorm, bind.
      rewrite !(get_num_features_Some _ _ _ _ Hl Hc). by apply Hal.
    + unfold batchnorm_to_groupnorm, get_num_features, bind, deref.
      by rewrite Hl, Hc.
  - unfold instancenorm_of, batchnorm_to_instancenorm, bind.
    rewrite (matchDim_cases _ _ _ Hl).
    destruct (num_features (fields o)) as [c|] eqn:Hc.
    + rewrite (get_num_features_Some _ _ _ _ Hl Hc).
      destruct (issubclass (__class__ (fields o)) BatchNorm1d);
        [by apply Hal|].
      destruct (issubclass (__class__ (fields o)) BatchNorm2d);
        [by apply Hal|].
      destruct (issubclass (__class__ (fields o)) BatchNorm3d);
        [by apply Hal|done].
    + unfold get_num_features, bind, deref. by rewrite Hl, Hc.
  - by apply Hal.
Qed.

Lemma provided_converters_leave_root_alone_witness :
  let h := heap_of model_two_bn in
  let o := cell_of (Node 2%positive (norm BatchNorm2d 10) []) in
  let o' := InstanceNorm_obj InstanceNorm2d 10 in
  replace_all_modules 0 (Some 2%positive) _BatchNorm
    (provided_converter ToInstanceNorm) h
  = Ok (Some (fresh (dom h))) (<[fresh (dom h) := o']> h) /\
  fresh (dom h) ∉ dom h /\ fresh (dom h) ≠ 2%positive /\
  _modules o' = [] /\
  (<[fresh (dom h) := o']> h) !! 2%positive = Some o /\
  (forall l0, l0 ∈ dom h -> (<[fresh (dom h) := o']> h) !! l0 = h !! l0).
Proof.
  apply (provided_converters_leave_root_alone ToInstanceNorm 0
           (heap_of model_two_bn) 2%positive
           (cell_of (Node 2%positive (norm BatchNorm2d 10) [])) _BatchNorm).
  - reflexivity.
  - reflexivity.
Defined.

(** C10 as stated fails: a [SyncBatchNorm] root is selected for
    [_BatchNorm], [batchnorm_to_instancenorm] is a converter of this file,
    and the call returns no node: it raises [TypeError]. *)
Lemma root_replacement_may_raise :
  let h := heap_of model_sync in
  h !! 1%positive = Some (cell_of model_sync) /\
  isinstance (Some 1%positive) _BatchNorm h = Ok true h /\
  replace_all_modules 0 (Some 1%positive) _BatchNorm
    (provided_converter ToInstanceNorm) h
  = Raise TypeError h /\
  forall fuel v h',
    replace_all_modules fuel (Some 1%positive) _BatchNorm
      (provided_converter ToInstanceNorm) h
    ≠ Ok v h'.
Proof.
  split; [reflexivity|]. split; [reflexivity|]. split; [reflexivity|].
  intros fuel v h'.
  rewrite (replace_selected_root fuel 1%positive (cell_of model_sync)
             _BatchNorm _ (heap_of model_sync) eq_refl eq_refl).
  discriminate.
Qed.

(** ** Dotted names *)

Lemma split_dot_nonempty s : split_dot s ≠ [].
Proof.
  destruct s as [|c s]; simpl; [done|].
  case_decide; [done|]. by destruct (split_dot s).
Qed.

Lemma split_dot_dotfree k : dotfree k = true -> split_dot k = [k].
Proof.
  induction k as [|c k IH]; simpl; [done|].
  case_decide; [done|]. intros Hk. by rewrite IH.
Qed.

Lemma split_dot_app_dot s k :
  dotfree k = true ->
  split_dot (String.append s (String dot k)) = (split_dot s ++ [k])%list.
Proof.
  intros Hk. induction s as [|c s IH]; simpl.
  - try rewrite decide_True by done. by rewrite split_dot_dotfree.
  - case_decide; [by rewrite IH|].
    rewrite IH. pose proof (split_dot_nonempty s).
    by destruct (split_dot s).
Qed.

Lemma submodule_prefix_empty k : submodule_prefix "" k = k.
Proof. reflexivity. Qed.

Lemma submodule_prefix_nonempty p k :
  p ≠ "" -> submodule_prefix p k = String.append p (String dot k).
Proof. intros Hp. unfold submodule_prefix. by rewrite decide_False. Qed.

Lemma join_path_snoc p k :
  join_path (p ++ [k])%list = submodule_prefix (join_path p) k.
Proof. unfold join_path. by rewrite foldl_app. Qed.

Lemma append_nonempty_l s t : s ≠ "" -> String.append s t ≠ "".
Proof. by destruct s. Qed.

Lemma join_path_nonempty p :
  Forall valid_name p -> p ≠ [] -> join_path p ≠ "".
Proof.
  induction p as [|k p IH] using rev_ind; [done|].
  intros [Hp Hk]%Forall_app _. apply Forall_singleton in Hk as [Hk _].
  rewrite join_path_snoc. destruct p as [|k' p].
  - by rewrite submodule_prefix_empty.
  - rewrite submodule_prefix_nonempty by (by apply IH).
    apply append_nonempty_l. by apply IH.
Qed.

Lemma split_join p :
  Forall valid_name p -> p ≠ [] -> split_dot (join_path p) = p.
Proof.
  induction p as [|k p IH] using rev_ind; [done|].
  intros [Hp Hk]%Forall_app _. apply Forall_singleton in Hk as [Hk Hd].
  rewrite join_path_snoc. destruct (decide (p = [])) as [->|Hne].
  - rewrite submodule_prefix_empty. by apply split_dot_dotfree.
  - rewrite submodule_prefix_nonempty by (by apply join_path_nonempty).
    rewrite split_dot_app_dot by done. by rewrite IH.
Qed.

Lemma init_names_snoc (p : list string) k : init_names (p ++ [k]) = p.
Proof. apply removelast_last. Qed.

Lemma last_name_snoc (p : list string) k : last_name (p ++ [k]) = k.
Proof. apply last_last. Qed.

(** ** Dictionaries *)

Lemma dict_get_app_r (d1 d2 : list (string * value)) k :
  k ∉ d1.*1 -> dict_get (d1 ++ d2) k = dict_get d2 k.
Proof.
  induction d1 as [|[k' v'] d1 IH]; simpl; [done|].
  intros Hk%not_elem_of_cons. destruct Hk as [Hne Hk].
  rewrite decide_False by done. by apply IH.
Qed.

Lemma dict_get_app_l (d1 d2 : list (string * value)) k :
  k ∈ d1.*1 -> dict_get (d1 ++ d2) k = dict_get d1 k.
Proof.
  induction d1 as [|[k' v'] d1 IH]; simpl; [by intros ?%elem_of_nil|].
  intros Hk. case_decide; [done|]. apply IH.
  apply elem_of_cons in Hk as [->|]; done.
Qed.

Lemma dict_get_here (d : list (string * value)) k v :
  dict_get ((k, v) :: d) k = Some v.
Proof. simpl. by rewrite decide_True. Qed.

Lemma dict_get_None (d : list (string * value)) k :
  k ∉ d.*1 -> dict_get d k = None.
Proof.
  induction d as [|[k' v'] d IH]; simpl; [done|].
  intros [Hne Hk]%not_elem_of_cons. rewrite decide_False by done. auto.
Qed.

Lemma dict_set_app_r (d1 d2 : list (string * value)) k v :
  k ∉ d1.*1 -> dict_set (d1 ++ d2) k v = (d1 ++ dict_set d2 k v)%list.
Proof.
  induction d1 as [|[k' v'] d1 IH]; simpl; [done|].
  intros [Hne Hk]%not_elem_of_cons. rewrite decide_False by done.
  by rewrite IH.
Qed.

Lemma dict_set_here (d : list (string * value)) k v v' :
  dict_set ((k, v) :: d) k v' = (k, v') :: d.
Proof. simpl. by rewrite decide_True. Qed.

Lemma dict_set_keys (d : list (string * value)) k v :
  k ∈ d.*1 -> (dict_set d k v).*1 = d.*1.
Proof.
  induction d as [|[k' v'] d IH]; simpl; [by intros ?%elem_of_nil|].
  intros Hk. case_decide as Hd; simpl; [by rewrite Hd|]. f_equal. apply IH.
  apply elem_of_cons in Hk as [->|]; done.
Qed.

Lemma dict_get_set_ne (d : list (string * value)) k k' v :
  k' ≠ k -> dict_get (dict_set d k v) k' = dict_get d k'.
Proof.
  intros Hne. induction d as [|[k0 v0] d IH]; simpl.
  - by rewrite decide_False.
  - destruct (decide (k0 = k)) as [->|]; simpl.
    + by rewrite !decide_False.
    + by rewrite IH.
Qed.

Lemma dict_get_set_eq (d : list (string * value)) k v :
  dict_get (dict_set d k v) k = Some v.
Proof.
  induction d as [|[k0 v0] d IH]; simpl.
  - by rewrite decide_True.
  - destruct (decide (k0 = k)) as [->|]; simpl.
    + by rewrite decide_True.
    + by rewrite decide_False.
Qed.

Local Close Scope string_scope.

#[local] Set Warnings "-clear-no-such-hyp".
#[local] Arguments get_modules : simpl never.
#[local] Arguments getitem : simpl never.
#[local] Arguments isinstance : simpl never.
#[local] Arguments setitem_modules : simpl never.
#[local] Arguments bind : simpl never.
#[local] Arguments ret : simpl never.
#[local] Arguments raise : simpl never.
#[local] Arguments submodule_prefix : simpl never.

(** ** Trees in the heap *)

Lemma kid_cells_cons_Some k t (kids : list (string * option tree)) :
  kid_cells ((k, Some t) :: kids) = (cells t ++ kid_cells kids)%list.
Proof. reflexivity. Qed.

Lemma kid_cells_cons_None k (kids : list (string * option tree)) :
  kid_cells ((k, None) :: kids) = kid_cells kids.
Proof. reflexivity. Qed.

Lemma kid_cells_app (k1 k2 : list (string * option tree)) :
  kid_cells (k1 ++ k2) = (kid_cells k1 ++ kid_cells k2)%list.
Proof. apply flat_map_app. Qed.

Lemma cells_Node l a kids :
  cells (Node l a kids) =
    (l, {| fields := a; _modules := entry <$> kids |}) :: kid_cells kids.
Proof. reflexivity. Qed.

Lemma cells_root t : cells t = (root_loc t, cell_of t) :: kid_cells (tkids t).
Proof. by destruct t. Qed.

Lemma entry_keys (kids : list (string * option tree)) :
  (entry <$> kids).*1 = kids.*1.
Proof. rewrite <-list_fmap_compose. by apply list_fmap_ext. Qed.

Lemma dict_get_entry (kids : list (string * option tree)) k ot :
  NoDup kids.*1 -> (k, ot) ∈ kids ->
  dict_get (entry <$> kids) k = Some (root_loc <$> ot).
Proof.
  induction kids as [|[k' ot'] kids IH]; simpl; [by intros _ ?%elem_of_nil|].
  intros [Hk' Hnd]%NoDup_cons [Heq|Hin]%elem_of_cons.
  - injection Heq as -> ->. by rewrite decide_True.
  - rewrite decide_False; [by apply IH|].
    intros ->. apply Hk'. apply list_elem_of_fmap. by exists (k, ot).
Qed.

Lemma depth_Node l a kids :
  depth (Node l a kids) = S (max_list (kid_depth depth <$> kids)).
Proof. reflexivity. Qed.

Lemma depth_kids_le n (kids : list (string * option tree)) :
  max_list (kid_depth depth <$> kids) ≤ n ->
  Forall (fun kv => kid_depth depth kv ≤ n) kids.
Proof.
  intros Hle. apply Forall_forall. intros kv Hkv.
  etrans; [|exact Hle]. apply max_list_elem_of_le.
  apply list_elem_of_fmap. by exists kv.
Qed.

(** ** Traversals that leave the heap alone *)

Section preserving.
Context (body : string -> loc -> M unit) (h : heap) (e : exn).
Context (hit : nn_Module -> bool) (Q : string -> Prop).
Context (known : nn_Module -> Prop).
Hypothesis HQ : forall p k, Q p -> valid_name k -> Q (submodule_prefix p k).
Hypothesis Hbody : forall p l c,
  Q p -> h !! l = Some c -> known c ->
  body p l h = if hit c then Raise e h else Ok tt h.

Lemma swept_nil memo : swept h e hit [] memo = Ok memo h.
Proof.
  unfold swept. rewrite decide_False by (by intros ?%Exists_nil).
  f_equal. set_solver.
Qed.

Lemma swept_app cs1 cs2 memo :
  swept h e hit (cs1 ++ cs2) memo =
    match swept h e hit cs1 memo with
    | Ok memo' _ => swept h e hit cs2 memo'
    | o => o
    end.
Proof.
  unfold swept, hits. destruct (decide (Exists _ cs1)) as [H1|H1].
  - rewrite decide_True; [done|]. apply Exists_app. by left.
  - destruct (decide (Exists _ cs2)) as [H2|H2].
    + rewrite decide_True; [done|]. apply Exists_app. by right.
    + rewrite decide_False by (rewrite Exists_app; tauto).
      f_equal. rewrite fmap_app, list_to_set_app_L. set_solver.
Qed.

Lemma items_sweep fuel (todo : list (string * option tree))
    self c keys memo p :
  sweeps body h e hit Q known fuel ->
  h !! self = Some c ->
  (_modules c).*1 = keys ->
  Forall (fun kv => dict_get (_modules c) kv.1 = Some (root_loc <$> kv.2))
         todo ->
  Forall valid_name todo.*1 ->
  Forall (fun kv => kid_depth depth kv ≤ fuel) todo ->
  Forall (fun lc : loc * nn_Module => h !! lc.1 = Some lc.2) (kid_cells todo) ->
  NoDup (kid_cells todo).*1 ->
  Forall (fun lc : loc * nn_Module => cell_ok lc.2) (kid_cells todo) ->
  Forall (fun lc : loc * nn_Module => known lc.2) (kid_cells todo) ->
  (forall l, l ∈ (kid_cells todo).*1 -> l ∉ memo) ->
  (forall k, valid_name k -> Q (submodule_prefix p k)) ->
  items_loop (named_modules_for fuel body) self p keys todo.*1 memo h
  = swept h e hit (kid_cells todo) memo.
Proof.
  intros Hrec Hself Hkeys.
  revert memo.
  induction todo as [|[k [t|]] todo IH];
    intros memo Hget Hnames Hdep Hin Hnd Hok Hkn Hmemo HQp.
  - simpl. by rewrite swept_nil.
  - apply Forall_cons in Hget as [Hg Hget].
    apply Forall_cons in Hnames as [Hk Hnames].
    apply Forall_cons in Hdep as [Hd Hdep].
    rewrite kid_cells_cons_Some in *.
    apply Forall_app in Hin as [Hin1 Hin2].
    apply Forall_app in Hok as [Hok1 Hok2].
    apply Forall_app in Hkn as [Hkn1 Hkn2].
    rewrite fmap_app in Hnd. apply NoDup_app in Hnd as (Hnd1 & Hdisj & Hnd2).
    simpl. unfold bind at 1.
    rewrite (get_modules_Some _ _ _ Hself).
    rewrite bool_decide_eq_true_2 by done.
    unfold bind at 1, getitem. simpl in Hg. rewrite Hg. unfold ret at 1.
    simpl. unfold bind at 1.
    rewrite (Hrec t memo (submodule_prefix p k)); try done.
    + rewrite swept_app.
      assert (swept h e hit (cells t) memo =
              if decide (hits hit (cells t)) then Raise e h
              else Ok (list_to_set (cells t).*1 ∪ memo) h) as -> by done.
      destruct (decide (hits hit (cells t))) as [Hh|Hh]; [done|].
      apply IH; try done.
        intros l Hl. rewrite fmap_app in Hmemo.
        apply not_elem_of_union. split.
        -- rewrite elem_of_list_to_set. intros Hl'. by apply (Hdisj l).
        -- apply Hmemo. apply elem_of_app. by right.
    + intros l Hl. apply Hmemo. rewrite fmap_app. apply elem_of_app. by left.
    + by apply HQp.
  - apply Forall_cons in Hget as [Hg Hget].
    apply Forall_cons in Hnames as [Hk Hnames].
    apply Forall_cons in Hdep as [Hd Hdep].
    rewrite kid_cells_cons_None in *.
    simpl. unfold bind at 1.
    rewrite (get_modules_Some _ _ _ Hself).
    rewrite bool_decide_eq_true_2 by done.
    unfold bind at 1, getitem. simpl in Hg. rewrite Hg. unfold ret at 1.
    simpl. by apply IH.
Qed.

Lemma sweeps_all fuel : sweeps body h e hit Q known fuel.
Proof.
  induction fuel as [|fuel IH];
    intros [l a kids] memo p Hd Hin Hwf Hknown Hmemo HQp.
  { rewrite depth_Node in Hd. lia. }
  rewrite depth_Node in Hd. destruct Hwf as [Hnd Hok].
  unfold in_heap, locs in *. rewrite cells_Node in *.
  apply Forall_cons in Hin as [Hl Hin]. apply Forall_cons in Hok as [Hc Hok].
  apply Forall_cons in Hknown as [Hk0 Hknown].
  rewrite fmap_cons in Hnd. apply NoDup_cons in Hnd as [Hlk Hnd].
  simpl in Hl, Hc |- *. destruct Hc as [Hkn Hkv]. simpl in Hkn, Hkv.
  rewrite entry_keys in Hkn, Hkv.
  rewrite decide_False by (apply Hmemo; apply list_elem_of_here).
  unfold bind at 1. rewrite (Hbody _ _ _ HQp Hl Hk0).
  unfold swept, hits. simpl.
  destruct (hit _) eqn:Hhit.
  { rewrite decide_True; [done|]. by apply Exists_cons_hd. }
  unfold bind at 1. rewrite (get_modules_Some _ _ _ Hl). simpl.
  rewrite entry_keys.
  rewrite (items_sweep fuel kids l _ kids.*1 ({[l]} ∪ memo) p IH Hl);
    try done.
  - unfold swept, hits. destruct (decide (Exists _ (kid_cells kids))) as [He|He].
    + rewrite decide_True; [done|]. by apply Exists_cons_tl.
    + rewrite decide_False.
      * f_equal. set_solver.
      * intros [Hh|Hh]%Exists_cons; [simpl in Hh; congruence|done].
  - simpl. apply entry_keys.
  - apply Forall_forall. intros [k ot] Hkv'. simpl.
    by apply dict_get_entry.
  - apply depth_kids_le. lia.
  - intros l' Hl'. apply not_elem_of_union. split.
    + intros ->%elem_of_singleton. done.
    + apply Hmemo. by apply list_elem_of_further.
  - intros k Hk. by apply HQ.
Qed.
End preserving.

(** ** No node selected: nothing happens *)

Lemma visit_no_match root X conv p l c (h : heap) :
  h !! l = Some c -> matches X c = false ->
  visit root X conv p l h = Ok tt h.
Proof.
  intros Hl Hm. unfold visit, bind. by rewrite (isinstance_Some _ _ _ X Hl), Hm.
Qed.

Lemma matching_nil X t :
  matching X t = [] ->
  Forall (fun lc : loc * nn_Module => matches X lc.2 = false) (cells t).
Proof.
  unfold matching. intros Hf. apply Forall_forall. intros lc Hlc.
  apply not_true_is_false. intros Hm.
  assert (lc ∈ filter (fun lc : loc * nn_Module => matches X lc.2 = true)
            (cells t)) as Hin by (by apply list_elem_of_filter).
  rewrite Hf in Hin. by apply elem_of_nil in Hin.
Qed.

Lemma no_hit cs : ¬ hits (fun _ => false) cs.
Proof. intros H. apply Exists_exists in H as (? & _ & ?). done. Qed.

(** A traversal of a tree without selected nodes only fills the memo. *)
Lemma quiet_traversal fuel root X conv (h : heap) s memo p :
  depth s ≤ fuel -> in_heap h s -> wf s ->
  Forall (fun lc : loc * nn_Module => matches X lc.2 = false) (cells s) ->
  (forall l, l ∈ locs s -> l ∉ memo) ->
  named_modules_for fuel (visit root X conv) (root_loc s) memo p h
  = Ok (list_to_set (locs s) ∪ memo) h.
Proof.
  intros Hd Hin Hwf Hnm Hmemo.
  rewrite (sweeps_all (visit root X conv) h KeyError (fun _ => false)
             (fun _ => True) (fun c => matches X c = false)); try done.
  - unfold swept. by rewrite decide_False by apply no_hit.
  - intros p' l c _ Hl Hm. by apply visit_no_match with c.
Qed.

(** [replace_all_modules] on a tree without selected nodes. *)
Lemma quiet_replace T (h : heap) X conv fuel :
  in_heap h T -> wf T -> depth T ≤ fuel ->
  Forall (fun lc : loc * nn_Module => matches X lc.2 = false) (cells T) ->
  replace_all_modules fuel (Some (root_loc T)) X conv h
  = Ok (Some (root_loc T)) h.
Proof.
  intros Hin Hwf Hd Hm.
  assert (h !! root_loc T = Some (cell_of T)) as Hroot.
  { unfold in_heap in Hin. rewrite cells_root in Hin.
    by apply Forall_cons in Hin as [? _]. }
  assert (matches X (cell_of T) = false) as Hr.
  { rewrite cells_root in Hm. by apply Forall_cons in Hm as [? _]. }
  unfold replace_all_modules, bind.
  rewrite (isinstance_Some _ _ _ X Hroot), Hr.
  rewrite quiet_traversal; done.
Qed.

(** C6: if [isinstance] selects no node of the tree, root included, the
    call returns the root it was given and the heap is the one it started
    from, whatever the converter is; so the converter was not called and no
    [_modules] entry was written. *)
Theorem no_match_unchanged T (h : heap) X conv fuel :
  in_heap h T -> wf T -> depth T ≤ fuel ->
  matching X T = [] ->
  replace_all_modules fuel (Some (root_loc T)) X conv h
  = Ok (Some (root_loc T)) h.
Proof.
  intros Hin Hwf Hd Hm. apply quiet_replace; try done.
  apply Forall_forall. intros lc Hlc. apply not_true_is_false. intros Hmt.
  assert (lc ∈ matching X T) as Hin' by (by apply list_elem_of_filter).
  rewrite Hm in Hin'. by apply elem_of_nil in Hin'.
Qed.

Lemma no_match_unchanged_witness :
  let h := heap_of model_seq in
  replace_all_modules 3 (Some 1%positive) _BatchNorm
    (fun _ _ => Abort DanglingRef) h
  = Ok (Some 1%positive) h.
Proof.
  apply (no_match_unchanged model_seq (heap_of model_seq) _BatchNorm
           (fun _ _ => Abort DanglingRef) 3).
  - apply (bool_decide_unpack _). vm_compute. exact I.
  - apply (bool_decide_unpack _). vm_compute. exact I.
  - vm_compute. lia.
  - reflexivity.
Defined.

(** ** Contexts *)

Lemma plug_app C1 C2 s : plug (C1 ++ C2) s = plug C2 (plug C1 s).
Proof. revert s. induction C1 as [|F C1 IH]; intros s; simpl; auto. Qed.

Lemma root_loc_plug C s s' :
  root_loc s = root_loc s' -> root_loc (plug C s) = root_loc (plug C s').
Proof.
  revert s s'. induction C as [|F C IH]; intros s s' Hr; simpl; [done|].
  by apply IH.
Qed.

Lemma root_loc_plug_cons F C s s' :
  root_loc (plug (F :: C) s) = root_loc (plug (F :: C) s').
Proof. simpl. by apply root_loc_plug. Qed.

Lemma ctx_path_cons F C : ctx_path (F :: C) = ctx_path C ++ [f_key F].
Proof. reflexivity. Qed.

Lemma ctx_path_snoc F C : ctx_path (C ++ [F]) = f_key F :: ctx_path C.
Proof. unfold ctx_path. rewrite fmap_app. simpl. by rewrite rev_unit. Qed.

Lemma ctx_cells_cons F C l :
  ctx_cells (F :: C) l =
    (f_loc F, frame_cell F (Some l)) :: side_cells F ++ ctx_cells C (f_loc F).
Proof. reflexivity. Qed.

Lemma frame_cell_fill F (t : tree) :
  {| fields := f_attrs F;
     _modules := entry <$> (f_before F ++ (f_key F, Some t) :: f_after F) |}
  = frame_cell F (Some (root_loc t)).
Proof. unfold frame_cell. by rewrite fmap_app. Qed.

Lemma cells_fill F t :
  cells (fill F (Some t)) ≡ₚ
    (f_loc F, frame_cell F (Some (root_loc t))) :: side_cells F ++ cells t.
Proof.
  unfold fill. rewrite cells_Node, frame_cell_fill. constructor.
  rewrite kid_cells_app, kid_cells_cons_Some. unfold side_cells.
  solve_Permutation.
Qed.

Lemma cells_plug C s :
  cells (plug C s) ≡ₚ ctx_cells C (root_loc s) ++ cells s.
Proof.
  revert s. induction C as [|F C IH]; intros s; [done|].
  simpl plug. rewrite IH, cells_fill, ctx_cells_cons. simpl root_loc.
  solve_Permutation.
Qed.

Lemma in_heap_plug (h : heap) C s :
  in_heap h (plug C s) <->
  Forall (fun lc : loc * nn_Module => h !! lc.1 = Some lc.2)
         (ctx_cells C (root_loc s)) /\ in_heap h s.
Proof. unfold in_heap. by rewrite cells_plug, Forall_app. Qed.

Lemma wf_plug C s :
  wf (plug C s) <->
  NoDup ((ctx_cells C (root_loc s)).*1 ++ locs s) /\
  Forall (fun lc : loc * nn_Module => cell_ok lc.2) (ctx_cells C (root_loc s)) /\
  Forall (fun lc : loc * nn_Module => cell_ok lc.2) (cells s).
Proof.
  unfold wf, locs. rewrite cells_plug, fmap_app, Forall_app. tauto.
Qed.

Lemma wf_plug_inner C s : wf (plug C s) -> wf s.
Proof.
  intros (Hnd & _ & Hok)%wf_plug. split; [|done].
  by apply NoDup_app in Hnd as (_ & _ & ?).
Qed.

Lemma in_heap_root (h : heap) t : in_heap h t -> h !! root_loc t = Some (cell_of t).
Proof.
  unfold in_heap. rewrite cells_root. by intros [? _]%Forall_cons.
Qed.

Lemma in_heap_dom (h : heap) t l : in_heap h t -> l ∈ locs t -> l ∈ dom h.
Proof.
  intros Hin Hl. apply list_elem_of_fmap in Hl as ([l' c] & -> & Hlc).
  unfold in_heap in Hin. rewrite Forall_forall in Hin.
  apply elem_of_dom. exists c. by apply (Hin (l', c)).
Qed.

(** *** The dictionary of a frame *)

Lemma frame_cell_keys F v :
  (_modules (frame_cell F v)).*1 = (f_before F).*1 ++ f_key F :: (f_after F).*1.
Proof. simpl. by rewrite fmap_app, fmap_cons, !entry_keys. Qed.

Lemma frame_keys_split F v :
  NoDup (_modules (frame_cell F v)).*1 ->
  (f_key F ∉ (f_before F).*1) /\ (f_key F ∉ (f_after F).*1) /\
  NoDup (f_before F).*1 /\ NoDup (f_after F).*1 /\
  (forall k, k ∈ (f_after F).*1 -> k ∉ (f_before F).*1).
Proof.
  rewrite frame_cell_keys. intros (Hb & Hd & Ha)%NoDup_app.
  apply NoDup_cons in Ha as [Hk Ha]. repeat split; try done.
  - intros Hin. apply (Hd _ Hin). apply list_elem_of_here.
  - intros k Hka Hkb. apply (Hd _ Hkb). by apply list_elem_of_further.
Qed.

Lemma frame_get_key F v :
  NoDup (_modules (frame_cell F v)).*1 ->
  dict_get (_modules (frame_cell F v)) (f_key F) = Some v.
Proof.
  intros (Hb & _)%frame_keys_split. simpl.
  rewrite dict_get_app_r by (by rewrite entry_keys).
  apply dict_get_here.
Qed.

Lemma frame_set_key F v v' :
  NoDup (_modules (frame_cell F v)).*1 ->
  dict_set (_modules (frame_cell F v)) (f_key F) v' = _modules (frame_cell F v').
Proof.
  intros (Hb & _)%frame_keys_split. simpl.
  rewrite dict_set_app_r by (by rewrite entry_keys).
  by rewrite dict_set_here.
Qed.

Lemma frame_get_before F v k ot :
  NoDup (_modules (frame_cell F v)).*1 ->
  (k, ot) ∈ f_before F ->
  dict_get (_modules (frame_cell F v)) k = Some (root_loc <$> ot).
Proof.
  intros (_ & _ & Hb & _)%frame_keys_split Hin. simpl.
  rewrite dict_get_app_l.
  - by apply dict_get_entry.
  - rewrite entry_keys. apply list_elem_of_fmap. by exists (k, ot).
Qed.

Lemma frame_get_after F v k ot :
  NoDup (_modules (frame_cell F v)).*1 ->
  (k, ot) ∈ f_after F ->
  dict_get (_modules (frame_cell F v)) k = Some (root_loc <$> ot).
Proof.
  intros (_ & Hka & _ & Ha & Hab)%frame_keys_split Hin. simpl.
  assert (k ∈ (f_after F).*1) as Hk.
  { apply list_elem_of_fmap. by exists (k, ot). }
  rewrite dict_get_app_r by (rewrite entry_keys; by apply Hab).
  simpl. rewrite decide_False by (intros Heq; apply Hka; by rewrite Heq).
  by apply dict_get_entry.
Qed.

(** The facts a frame around [s] contributes. *)
Lemma frame_facts (h : heap) F C s :
  in_heap h (plug (F :: C) s) -> wf (plug (F :: C) s) ->
  h !! f_loc F = Some (frame_cell F (Some (root_loc s))) /\
  cell_ok (frame_cell F (Some (root_loc s))).
Proof.
  intros Hin Hwf. apply in_heap_plug in Hin as [Hin _].
  apply wf_plug in Hwf as (_ & Hok & _). rewrite ctx_cells_cons in Hin, Hok.
  apply Forall_cons in Hin as [Hin _]. apply Forall_cons in Hok as [Hok _].
  done.
Qed.

Lemma ctx_path_valid C l :
  Forall (fun lc : loc * nn_Module => cell_ok lc.2) (ctx_cells C l) ->
  Forall valid_name (ctx_path C).
Proof.
  revert l. induction C as [|F C IH]; intros l Hok; [constructor|].
  rewrite ctx_cells_cons in Hok. apply Forall_cons in Hok as [[_ Hk] Hok].
  apply Forall_app in Hok as [_ Hok]. cbn [snd] in Hk.
  rewrite ctx_path_cons. apply Forall_app. split; [by eapply IH|].
  apply Forall_singleton. rewrite frame_cell_keys in Hk.
  apply Forall_app in Hk as [_ Hk]. by apply Forall_cons in Hk as [? _].
Qed.

(** ** Resolving a dotted name *)

Lemma walk_app v p q (h : heap) :
  walk v (p ++ q) h =
    match walk v p h with
    | Ok v' h' => walk v' q h'
    | Raise e h' => Raise e h'
    | Abort f => Abort f
    end.
Proof.
  revert v h. induction p as [|k p IH]; intros v h; simpl; [done|].
  unfold bind. destruct (get_modules v h) as [d h'| |]; [|done..].
  destruct (getitem d k h') as [v' h''| |]; [|done..]. apply IH.
Qed.

Lemma walk_step (h : heap) l c k v :
  h !! l = Some c -> dict_get (_modules c) k = Some v ->
  walk (Some l) [k] h = Ok v h.
Proof.
  intros Hl Hk. simpl. unfold bind. rewrite (get_modules_Some _ _ _ Hl).
  unfold getitem. by rewrite Hk.
Qed.

(** Walking the path of a context from the root arrives at the hole. *)
Lemma walk_plug (h : heap) C s :
  in_heap h (plug C s) -> wf (plug C s) ->
  walk (Some (root_loc (plug C s))) (ctx_path C) h = Ok (Some (root_loc s)) h.
Proof.
  revert s. induction C as [|F C IH]; intros s Hin Hwf; [done|].
  destruct (frame_facts _ _ _ _ Hin Hwf) as [Hl [Hnd _]].
  rewrite ctx_path_cons, walk_app. simpl plug in *.
  rewrite (IH _ Hin Hwf). simpl root_loc.
  apply walk_step with (frame_cell F (Some (root_loc s))); [done|].
  by apply frame_get_key.
Qed.

(** [_replace_child] on the dotted name of a context: the converter runs on
    what fills the hole and its result is stored in the innermost frame. *)
Lemma replace_child_plug (h : heap) F C s conv :
  in_heap h (plug (F :: C) s) -> wf (plug (F :: C) s) ->
  _replace_child (Some (root_loc (plug (F :: C) s)))
    (join_path (ctx_path (F :: C))) conv h
  = match conv (Some (root_loc s)) h with
    | Ok new h1 => setitem_modules (Some (f_loc F)) (f_key F) new h1
    | Raise e h1 => Raise e h1
    | Abort f => Abort f
    end.
Proof.
  intros Hin Hwf.
  destruct (frame_facts _ _ _ _ Hin Hwf) as [Hl [Hnd _]].
  assert (Forall valid_name (ctx_path (F :: C))) as Hval.
  { apply wf_plug in Hwf as (_ & Hok & _). by eapply ctx_path_valid. }
  unfold _replace_child. rewrite split_join; [|done|].
  2:{ rewrite ctx_path_cons. by destruct (ctx_path C). }
  rewrite ctx_path_cons, init_names_snoc, last_name_snoc.
  unfold bind. simpl plug in *. rewrite (walk_plug _ _ _ Hin Hwf).
  simpl root_loc. rewrite (get_modules_Some _ _ _ Hl).
  unfold getitem. by rewrite frame_get_key.
Qed.

(** Once a childless node sits in the hole, a name that goes below the hole
    cannot be resolved. *)
Lemma replace_child_dead (h : heap) C s q conv :
  in_heap h (plug C s) -> wf (plug C s) -> tkids s = [] ->
  Forall valid_name q -> q ≠ [] ->
  _replace_child (Some (root_loc (plug C s)))
    (join_path (ctx_path C ++ q)) conv h
  = Raise KeyError h.
Proof.
  intros Hin Hwf Hleaf Hq Hne.
  assert (Forall valid_name (ctx_path C)) as Hval.
  { apply wf_plug in Hwf as (_ & Hok & _). by eapply ctx_path_valid. }
  assert (h !! root_loc s = Some (cell_of s)) as Hs.
  { apply in_heap_plug in Hin as [_ Hin]. by apply in_heap_root. }
  unfold _replace_child. rewrite split_join; [|by apply Forall_app|].
  2:{ intros [_ ?]%app_eq_nil. done. }
  destruct q as [|k q _] using rev_ind; [done|].
  rewrite app_assoc, init_names_snoc, last_name_snoc.
  unfold bind. rewrite walk_app, (walk_plug _ _ _ Hin Hwf).
  destruct q as [|k' q].
  - simpl. rewrite (get_modules_Some _ _ _ Hs).
    unfold cell_of. simpl. by rewrite Hleaf.
  - simpl. unfold bind. rewrite (get_modules_Some _ _ _ Hs).
    unfold cell_of. simpl. by rewrite Hleaf.
Qed.

(** ** Sweeping the children of a node *)

Lemma named_modules_for_S fuel body self memo p (h : heap) :
  named_modules_for (S fuel) body self memo p h =
    if decide (self ∈ memo) then Ok memo h
    else match body p self h with
         | Ok _ h' =>
             match get_modules (Some self) h' with
             | Ok d h'' =>
                 items_loop (named_modules_for fuel body) self p d.*1 d.*1
                   ({[self]} ∪ memo) h''
             | Raise e h'' => Raise e h''
             | Abort f => Abort f
             end
         | Raise e h' => Raise e h'
         | Abort f => Abort f
         end.
Proof. simpl. by destruct (decide (self ∈ memo)). Qed.

Lemma items_loop_cons rec self p keys k todo memo (h : heap) :
  items_loop rec self p keys (k :: todo) memo h =
    match get_modules (Some self) h with
    | Ok d h' =>
        if bool_decide (d.*1 = keys) then
          match dict_get d k with
          | Some (Some child) =>
              match rec child memo (submodule_prefix p k) h' with
              | Ok memo' h'' => items_loop rec self p keys todo memo' h''
              | Raise e h'' => Raise e h''
              | Abort f => Abort f
              end
          | Some None => items_loop rec self p keys todo memo h'
          | None => Raise KeyError h'
          end
        else Raise RuntimeError h'
    | Raise e h' => Raise e h'
    | Abort f => Abort f
    end.
Proof.
  simpl. unfold bind. destruct (get_modules (Some self) h); [|done..].
  case_bool_decide; [|done]. unfold getitem.
  by destruct (dict_get a k) as [[?|]|].
Qed.

Lemma items_loop_app rec self p keys (t1 t2 : list string) memo (h : heap) :
  items_loop rec self p keys (t1 ++ t2) memo h =
    match items_loop rec self p keys t1 memo h with
    | Ok memo' h' => items_loop rec self p keys t2 memo' h'
    | Raise e h' => Raise e h'
    | Abort f => Abort f
    end.
Proof.
  revert memo h. induction t1 as [|k t1 IH]; intros memo h; [done|].
  simpl. unfold bind.
  destruct (get_modules (Some self) h) as [d h'| |]; [|done..].
  case_bool_decide; [|done].
  destruct (getitem d k h') as [[child|] h''| |]; [| |done..].
  - destruct (rec child memo (submodule_prefix p k) h''); [|done..]. apply IH.
  - apply IH.
Qed.

Lemma quiet_items fuel root X conv (h : heap) todo self c memo p :
  quiet_forest h X fuel todo ->
  h !! self = Some c ->
  Forall (fun kv => dict_get (_modules c) kv.1 = Some (root_loc <$> kv.2)) todo ->
  (forall l, l ∈ (kid_cells todo).*1 -> l ∉ memo) ->
  items_loop (named_modules_for fuel (visit root X conv)) self p
    (_modules c).*1 todo.*1 memo h
  = Ok (list_to_set (kid_cells todo).*1 ∪ memo) h.
Proof.
  intros [] Hself Hget Hmemo.
  rewrite (items_sweep (visit root X conv) h KeyError (fun _ => false)
             (fun _ => True) (fun c => matches X c = false))
    with (c := c); try done.
  - unfold swept. by rewrite decide_False by apply no_hit.
  - intros p' l c' _ Hl Hm. by apply visit_no_match with c'.
  - apply sweeps_all; [done|].
    intros p' l c' _ Hl Hm. by apply visit_no_match with c'.
Qed.

Lemma quiet_forest_heap (h h' : heap) X fuel todo :
  quiet_forest h X fuel todo ->
  (forall l, l ∈ (kid_cells todo).*1 -> h' !! l = h !! l) ->
  quiet_forest h' X fuel todo.
Proof.
  intros [Hn Hd Hh Hnd Hok Hq] Hsame. split; try done.
  apply Forall_forall. intros [l c] Hlc. simpl.
  rewrite Hsame.
  - rewrite Forall_forall in Hh. by apply (Hh (l, c)).
  - apply list_elem_of_fmap. by exists (l, c).
Qed.

Lemma cells_fill_eq F t :
  cells (fill F (Some t)) =
    (f_loc F, frame_cell F (Some (root_loc t)))
      :: kid_cells (f_before F) ++ cells t ++ kid_cells (f_after F).
Proof.
  unfold fill. rewrite cells_Node, frame_cell_fill.
  by rewrite kid_cells_app, kid_cells_cons_Some.
Qed.

Lemma kids_quiet (h : heap) X fuel s :
  depth s ≤ S fuel -> wf s ->
  Forall (fun lc : loc * nn_Module => h !! lc.1 = Some lc.2)
         (kid_cells (tkids s)) ->
  Forall (fun lc : loc * nn_Module => matches X lc.2 = false)
         (kid_cells (tkids s)) ->
  quiet_forest h X fuel (tkids s).
Proof.
  destruct s as [l a kids]. rewrite depth_Node. simpl tkids.
  intros Hd [Hnd Hok] Hin Hq. unfold locs in Hnd.
  rewrite cells_Node in Hnd, Hok. apply Forall_cons in Hok as [[_ Hv] Hok].
  simpl in Hv. rewrite entry_keys in Hv.
  rewrite fmap_cons in Hnd. apply NoDup_cons in Hnd as [_ Hnd].
  split; try done. apply depth_kids_le. lia.
Qed.

Lemma side_quiet (h : heap) X fuel F t :
  depth (fill F (Some t)) ≤ S fuel -> wf (fill F (Some t)) ->
  Forall (fun lc : loc * nn_Module => h !! lc.1 = Some lc.2) (side_cells F) ->
  Forall (fun lc : loc * nn_Module => matches X lc.2 = false) (side_cells F) ->
  quiet_forest h X fuel (f_before F) /\ quiet_forest h X fuel (f_after F).
Proof.
  unfold fill at 1. rewrite depth_Node. intros Hd [Hnd Hok] Hin Hq.
  unfold locs in Hnd. rewrite cells_fill_eq in Hnd, Hok.
  apply Forall_cons in Hok as [[_ Hv] Hok]. cbn [snd] in Hv.
  rewrite frame_cell_keys in Hv.
  apply Forall_app in Hv as [Hvb Hva]. apply Forall_cons in Hva as [_ Hva].
  apply Forall_app in Hok as [Hokb Hok]. apply Forall_app in Hok as [_ Hoka].
  rewrite fmap_cons, !fmap_app in Hnd. apply NoDup_cons in Hnd as [_ Hnd].
  apply NoDup_app in Hnd as (Hndb & _ & Hnd).
  apply NoDup_app in Hnd as (_ & _ & Hnda).
  unfold side_cells in Hin, Hq.
  apply Forall_app in Hin as [Hinb Hina]. apply Forall_app in Hq as [Hqb Hqa].
  apply le_S_n, (depth_kids_le fuel) in Hd.
  apply Forall_app in Hd as [Hdb Hda]. apply Forall_cons in Hda as [_ Hda].
  split; split; done.
Qed.

(** ** Paths in a tree that sits in the heap *)

Lemma walk_cons v k q (h : heap) :
  walk v (k :: q) h =
    match get_modules v h with
    | Ok d h' =>
        match dict_get d k with
        | Some child => walk child q h'
        | None => Raise KeyError h'
        end
    | Raise e h' => Raise e h'
    | Abort f => Abort f
    end.
Proof.
  simpl. unfold bind. destruct (get_modules v h); [|done..].
  unfold getitem. by destruct (dict_get a k).
Qed.

Lemma walk_None q (h : heap) :
  walk None q h =
    match q with [] => Ok None h | _ :: _ => Raise AttributeError h end.
Proof. by destruct q. Qed.

(** Resolving a path reads the heap and leaves it as it is. *)
Lemma walk_pure v q (h : heap) :
  match walk v q h with
  | Ok _ h' | Raise _ h' => h' = h
  | Abort _ => True
  end.
Proof.
  revert v. induction q as [|k q IH]; intros v; [done|].
  rewrite walk_cons. destruct v as [l|]; [|done].
  unfold get_modules, bind, deref. destruct (h !! l); [|done].
  unfold ret. destruct (dict_get _ k); [apply IH|done].
Qed.

Lemma walk_answer_Ok v q (h : heap) a :
  answer (walk v q h) = Some (inl a) -> walk v q h = Ok a h.
Proof.
  pose proof (walk_pure v q h) as Hp.
  destruct (walk v q h); simpl; intros [= ->]. by subst.
Qed.

Lemma dict_get_entry_inv (kids : list (string * option tree)) k vv :
  dict_get (entry <$> kids) k = Some vv ->
  exists ot, (k, ot) ∈ kids /\ vv = root_loc <$> ot.
Proof.
  induction kids as [|[k' ot'] kids IH]; simpl; [done|].
  case_decide as Hk.
  - intros [= <-]. subst k'. exists ot'. split; [apply list_elem_of_here|done].
  - intros (ot & Hin & ->)%IH. exists ot. split; [|done].
    by apply list_elem_of_further.
Qed.

Lemma kid_cells_elem (kids : list (string * option tree)) k t lc :
  (k, Some t) ∈ kids -> lc ∈ cells t -> lc ∈ kid_cells kids.
Proof.
  intros Hk Hlc. apply list_elem_of_In, in_flat_map.
  exists (k, Some t). split; by apply list_elem_of_In.
Qed.

Lemma walk_same q :
  forall t (h h' : heap),
    in_heap h t -> in_heap h' t ->
    answer (walk (Some (root_loc t)) q h)
    = answer (walk (Some (root_loc t)) q h').
Proof.
  induction q as [|k q IH]; intros t h h' Hin Hin'; [done|].
  rewrite !walk_cons.
  rewrite (get_modules_Some _ _ _ (in_heap_root _ _ Hin)).
  rewrite (get_modules_Some _ _ _ (in_heap_root _ _ Hin')).
  destruct (dict_get (_modules (cell_of t)) k) as [[l|]|] eqn:Hg; [| |done].
  - apply dict_get_entry_inv in Hg as ([t'|] & Hk & [= ->]).
    apply IH.
    + unfold in_heap in *. rewrite Forall_forall in Hin |- *.
      intros lc Hlc. apply Hin. rewrite cells_root.
      apply list_elem_of_further. by eapply kid_cells_elem.
    + unfold in_heap in *. rewrite Forall_forall in Hin' |- *.
      intros lc Hlc. apply Hin'. rewrite cells_root.
      apply list_elem_of_further. by eapply kid_cells_elem.
  - rewrite !walk_None. by destruct q.
Qed.

Lemma frame_get_inv F x k vv :
  k ≠ f_key F ->
  dict_get (_modules (frame_cell F x)) k = Some vv ->
  exists ot, ((k, ot) ∈ f_before F \/ (k, ot) ∈ f_after F) /\
             vv = root_loc <$> ot.
Proof.
  intros Hne. simpl.
  destruct (decide (k ∈ (entry <$> f_before F).*1)) as [Hb|Hb].
  - rewrite dict_get_app_l by done.
    intros (ot & Hin & ->)%dict_get_entry_inv. eauto.
  - rewrite dict_get_app_r by done. simpl.
    rewrite decide_False by done.
    intros (ot & Hin & ->)%dict_get_entry_inv. eauto.
Qed.

Lemma frame_get_other F x y k :
  k ≠ f_key F ->
  dict_get (_modules (frame_cell F x)) k = dict_get (_modules (frame_cell F y)) k.
Proof.
  intros Hne. simpl.
  destruct (decide (k ∈ (entry <$> f_before F).*1)) as [Hb|Hb].
  - by rewrite !dict_get_app_l.
  - rewrite !dict_get_app_r by done. simpl. by rewrite !decide_False.
Qed.

(** ** One selected node *)

Section single_match.
Context (X : Class) (conv : converter) (h h1 : heap) (v : value).
Context (F0 : frame) (C0 : list frame) (s0 : tree).

Local Abbreviation T := (plug (F0 :: C0) s0).
Local Abbreviation body := (visit (Some (root_loc T)) X conv).
Local Abbreviation h2 := (<[f_loc F0 := frame_cell F0 v]> h1).

Hypothesis Hin : in_heap h T.
Hypothesis Hwf : wf T.
Hypothesis Hm0 : matches X (cell_of s0) = true.
Hypothesis Hctx :
  Forall (fun lc : loc * nn_Module => matches X lc.2 = false)
         (ctx_cells (F0 :: C0) (root_loc s0)).
Hypothesis Hkids :
  Forall (fun lc : loc * nn_Module => matches X lc.2 = false)
         (kid_cells (tkids s0)).
Hypothesis Hconv : conv (Some (root_loc s0)) h = Ok v h1.
Hypothesis Hpres : forall l, l ∈ locs T -> h1 !! l = h !! l.

Lemma sm_in l c : (l, c) ∈ cells T -> h !! l = Some c.
Proof.
  intros Hlc. unfold in_heap in Hin. rewrite Forall_forall in Hin.
  by apply (Hin (l, c)).
Qed.

Lemma sm_locs l c : (l, c) ∈ cells T -> l ∈ locs T.
Proof. intros Hlc. apply list_elem_of_fmap. by exists (l, c). Qed.

Lemma sm_h2_other l c : (l, c) ∈ cells T -> l ≠ f_loc F0 -> h2 !! l = Some c.
Proof.
  intros Hlc Hne. rewrite lookup_insert_ne by done.
  rewrite Hpres by (by eapply sm_locs). by apply sm_in.
Qed.

Lemma sm_parent :
  h !! f_loc F0 = Some (frame_cell F0 (Some (root_loc s0))) /\
  cell_ok (frame_cell F0 (Some (root_loc s0))).
Proof. by apply frame_facts with C0. Qed.

Lemma sm_parent_in : (f_loc F0, frame_cell F0 (Some (root_loc s0))) ∈ cells T.
Proof.
  rewrite cells_plug, ctx_cells_cons. apply list_elem_of_here.
Qed.

Lemma sm_quiet l c : (l, c) ∈ cells T -> l ≠ root_loc s0 -> matches X c = false.
Proof.
  rewrite cells_plug, cells_root. intros Hlc Hne.
  apply elem_of_app in Hlc as [Hlc|Hlc].
  - rewrite Forall_forall in Hctx. by apply (Hctx (l, c)).
  - apply elem_of_cons in Hlc as [Heq|Hlc]; [congruence|].
    rewrite Forall_forall in Hkids. by apply (Hkids (l, c)).
Qed.

(** The loop body at the selected node stores the converted node in the
    parent. *)
Lemma sm_visit :
  body (join_path (ctx_path (F0 :: C0))) (root_loc s0) h = Ok tt h2.
Proof.
  destruct sm_parent as [HP [Hnd _]].
  assert (h !! root_loc s0 = Some (cell_of s0)) as Hs0.
  { apply in_heap_plug in Hin as [_ Hs]. by apply in_heap_root. }
  unfold visit, bind. rewrite (isinstance_Some _ _ _ X Hs0), Hm0.
  rewrite (replace_child_plug _ _ _ _ _ Hin Hwf), Hconv.
  unfold setitem_modules, bind, deref.
  rewrite Hpres by (eapply sm_locs, sm_parent_in). rewrite HP.
  by rewrite frame_set_key.
Qed.

Lemma sm_sub C_in C_out :
  C_in ++ C_out = F0 :: C0 -> T = plug C_out (plug C_in s0).
Proof. intros <-. apply plug_app. Qed.

(** The parent of the selected node is the node itself or inside it, for
    every node on the way up. *)
Lemma sm_parent_inside C_in F C_out :
  (C_in ++ [F]) ++ C_out = F0 :: C0 ->
  f_loc F0 = f_loc F \/ f_loc F0 ∈ locs (plug C_in s0).
Proof.
  destruct C_in as [|F' C_in]; intros HC; simpl in HC;
    injection HC as -> _; [by left|right].
  unfold locs. rewrite (cells_plug (F0 :: C_in)), ctx_cells_cons.
  rewrite fmap_app, fmap_cons. apply list_elem_of_here.
Qed.

Lemma sm_step C_in F C_out :
  (C_in ++ [F]) ++ C_out = F0 :: C0 ->
  h !! f_loc F = Some (frame_cell F (Some (root_loc (plug C_in s0)))) /\
  wf (fill F (Some (plug C_in s0))) /\
  matches X (frame_cell F (Some (root_loc (plug C_in s0)))) = false /\
  (exists x, h2 !! f_loc F = Some (frame_cell F x) /\
             (C_in = [] -> F = F0 /\ x = v) /\
             (C_in ≠ [] -> x = Some (root_loc (plug C_in s0)))) /\
  (forall l c, (l, c) ∈ side_cells F ->
     h !! l = Some c /\ h2 !! l = Some c /\ matches X c = false).
Proof.
  intros HC. set (n' := plug C_in s0) in *.
  assert (T = plug (F :: C_out) n') as HT.
  { rewrite <-HC, <-app_assoc. apply plug_app. }
  assert (in_heap h (plug (F :: C_out) n')) as Hin' by (by rewrite <-HT).
  assert (wf (plug (F :: C_out) n')) as Hwf' by (by rewrite <-HT).
  destruct (frame_facts _ _ _ _ Hin' Hwf') as [HF [HndF HvF]].
  assert (wf (fill F (Some n'))) as Hwfn by (by apply (wf_plug_inner C_out)).
  assert (forall l c, (l, c) ∈ cells (fill F (Some n')) -> (l, c) ∈ cells T)
    as Hsub.
  { intros l c Hlc. rewrite HT. simpl plug. rewrite cells_plug.
    apply elem_of_app. by right. }
  pose proof Hwfn as [Hndn _]. unfold locs in Hndn.
  rewrite cells_fill_eq, fmap_cons, !fmap_app in Hndn.
  apply NoDup_cons in Hndn as [HFn Hndn].
  apply NoDup_app in Hndn as (_ & Hdis1 & Hndn).
  apply NoDup_app in Hndn as (_ & Hdis2 & _).
  rewrite !not_elem_of_app in HFn. destruct HFn as (HFb & HFn' & HFa).
  assert (root_loc s0 ∈ locs n') as Hs0n.
  { unfold locs, n'. rewrite cells_plug, fmap_app, cells_root, fmap_cons.
    apply elem_of_app. right. apply list_elem_of_here. }
  split; [done|]. split; [done|]. split; [|split].
  - apply sm_quiet with (f_loc F).
    + apply Hsub. rewrite cells_fill_eq. apply list_elem_of_here.
    + intros Heq. apply HFn'. by rewrite Heq.
  - destruct C_in as [|F' C_in]; simpl in HC.
    + injection HC as -> _. exists v. split; [apply lookup_insert_eq|done].
    + injection HC as -> _. exists (Some (root_loc n')).
      split; [|done]. apply sm_h2_other.
      * apply Hsub. rewrite cells_fill_eq. apply list_elem_of_here.
      * intros Heq. apply HFn'. rewrite Heq. unfold locs, n'.
        rewrite (cells_plug (F0 :: C_in)), ctx_cells_cons.
        rewrite fmap_app, fmap_cons. apply list_elem_of_here.
  - intros l c Hlc.
    assert ((l, c) ∈ cells T) as HlcT.
    { apply Hsub. rewrite cells_fill_eq. apply list_elem_of_further.
      unfold side_cells in Hlc. rewrite !elem_of_app.
      apply elem_of_app in Hlc as [?|?]; auto. }
    assert (l ∈ (kid_cells (f_before F)).*1 \/
            l ∈ (kid_cells (f_after F)).*1) as Hl.
    { unfold side_cells in Hlc. apply elem_of_app in Hlc as [?|?];
        [left|right]; apply list_elem_of_fmap; by exists (l, c). }
    split; [by apply sm_in|]. split.
    + apply sm_h2_other; [done|]. intros ->.
      destruct (sm_parent_inside _ _ _ HC) as [HP|HP].
      * rewrite HP in Hl. tauto.
      * destruct Hl as [Hl|Hl].
        -- apply (Hdis1 _ Hl). apply elem_of_app. by left.
        -- apply (Hdis2 _ HP Hl).
    + apply (sm_quiet l); [done|]. intros ->.
      destruct Hl as [Hl|Hl].
      * apply (Hdis1 _ Hl). apply elem_of_app. by left.
      * apply (Hdis2 _ Hs0n Hl).
Qed.

Lemma sm_traverse C_in :
  forall C_out fuel memo,
    C_in ++ C_out = F0 :: C0 ->
    depth (plug C_in s0) ≤ fuel ->
    (forall l, l ∈ locs (plug C_in s0) -> l ∉ memo) ->
    named_modules_for fuel body (root_loc (plug C_in s0)) memo
      (join_path (ctx_path C_out)) h
    = Ok (list_to_set (locs (plug C_in s0)) ∪ memo) h2.
Proof.
  induction C_in as [|F C_in IH] using rev_ind;
    intros C_out fuel memo HC Hd Hmemo.
  - simpl in HC. subst C_out. change (plug [] s0) with s0 in *.
    destruct fuel as [|fuel]; [destruct s0; rewrite depth_Node in Hd; lia|].
    assert (wf s0) as Hwf0 by (by eapply wf_plug_inner).
    assert (forall l c, (l, c) ∈ cells s0 -> (l, c) ∈ cells T) as Hsub.
    { intros l c Hlc. rewrite cells_plug. apply elem_of_app. by right. }
    assert (forall l c, (l, c) ∈ cells s0 -> l ≠ f_loc F0) as HneP.
    { intros l c Hlc ->. destruct Hwf as [Hnd _]. unfold locs in Hnd.
      rewrite cells_plug, ctx_cells_cons, fmap_app, fmap_cons in Hnd.
      apply NoDup_app in Hnd as (_ & Hdis & _).
      apply (Hdis (f_loc F0)); [apply list_elem_of_here|].
      apply list_elem_of_fmap. by exists (f_loc F0, c). }
    assert (h2 !! root_loc s0 = Some (cell_of s0)) as Hs2.
    { apply sm_h2_other.
      - apply Hsub. rewrite cells_root. apply list_elem_of_here.
      - apply HneP with (cell_of s0). rewrite cells_root.
        apply list_elem_of_here. }
    rewrite named_modules_for_S, decide_False.
    2:{ apply Hmemo. unfold locs. rewrite cells_root, fmap_cons.
        apply list_elem_of_here. }
    rewrite sm_visit, (get_modules_Some _ _ _ Hs2).
    assert ((_modules (cell_of s0)).*1 = (tkids s0).*1) as Hk0
      by apply entry_keys.
    rewrite Hk0 at 2. clear Hk0.
    rewrite (quiet_items fuel _ X conv h2 (tkids s0)) with (c := cell_of s0);
      try done.
    + f_equal. unfold locs. rewrite (cells_root s0), fmap_cons. set_solver.
    + apply kids_quiet; try done.
      apply Forall_forall. intros [l c] Hlc.
      assert ((l, c) ∈ cells s0) as Hlc'.
      { rewrite cells_root. by apply list_elem_of_further. }
      apply sm_h2_other; [by apply Hsub|by eapply HneP].
    + destruct Hwf0 as [_ Hok]. rewrite cells_root in Hok.
      apply Forall_cons in Hok as [[Hnd _] _]. simpl in Hnd.
      rewrite entry_keys in Hnd.
      apply Forall_forall. intros [k ot] Hk. by apply dict_get_entry.
    + intros l Hl. apply not_elem_of_union. split.
      * intros ->%elem_of_singleton. destruct Hwf0 as [Hnd _].
        unfold locs in Hnd. rewrite cells_root, fmap_cons in Hnd.
        by apply NoDup_cons in Hnd as [? _].
      * apply Hmemo. unfold locs. rewrite cells_root, fmap_cons.
        by apply list_elem_of_further.
  - rewrite plug_app in Hd, Hmemo |- *.
    change (plug [F] (plug C_in s0)) with (fill F (Some (plug C_in s0))) in *.
    destruct (sm_step _ _ _ HC) as (HF & Hwfn & HmF & (x & HF2 & _) & Hside).
    set (n' := plug C_in s0) in *.
    pose proof Hwfn as [Hndn Hokn]. unfold locs in Hndn.
    rewrite cells_fill_eq in Hokn.
    apply Forall_cons in Hokn as [[HndF HvF] _]. cbn [snd] in HndF, HvF.
    rewrite cells_fill_eq, fmap_cons, !fmap_app in Hndn.
    apply NoDup_cons in Hndn as [HFn Hndn].
    apply NoDup_app in Hndn as (_ & Hdis1 & Hndn).
    apply NoDup_app in Hndn as (_ & Hdis2 & _).
    rewrite !not_elem_of_app in HFn. destruct HFn as (HFb & HFn' & HFa).
    destruct fuel as [|fuel]; [unfold fill in Hd; rewrite depth_Node in Hd; lia|].
    destruct (side_quiet h X fuel F n') as [Hqb Hqa]; try done.
    { apply Forall_forall. intros [l c] Hlc.
      by destruct (Hside l c Hlc) as (? & ? & ?). }
    { apply Forall_forall. intros [l c] Hlc.
      by destruct (Hside l c Hlc) as (? & ? & ?). }
    assert (quiet_forest h2 X fuel (f_after F)) as Hqa2.
    { apply quiet_forest_heap with h; [done|]. intros l Hl.
      apply list_elem_of_fmap in Hl as ([l' c] & -> & Hlc). simpl.
      destruct (Hside l' c) as (-> & -> & _); [|done].
      unfold side_cells. apply elem_of_app. by right. }
    change (root_loc (fill F (Some n'))) with (f_loc F).
    rewrite named_modules_for_S, decide_False.
    2:{ apply Hmemo. unfold locs. rewrite cells_fill_eq, fmap_cons.
        apply list_elem_of_here. }
    rewrite (visit_no_match _ _ _ _ _ _ _ HF HmF).
    rewrite (get_modules_Some _ _ _ HF).
    rewrite frame_cell_keys.
    rewrite items_loop_app.
    rewrite <-(frame_cell_keys F (Some (root_loc n'))).
    rewrite (quiet_items fuel _ X conv h (f_before F))
      with (c := frame_cell F (Some (root_loc n'))); try done.
    2:{ apply Forall_forall. intros [k ot] Hk. by apply frame_get_before. }
    2:{ intros l Hl. apply not_elem_of_union. split.
        - intros ->%elem_of_singleton. done.
        - apply Hmemo. unfold locs.
          rewrite cells_fill_eq, fmap_cons, !fmap_app.
          apply list_elem_of_further, elem_of_app. by left. }
    change (f_key F :: (f_after F).*1) with ([f_key F] ++ (f_after F).*1).
    rewrite items_loop_app, items_loop_cons.
    rewrite (get_modules_Some _ _ _ HF).
    rewrite bool_decide_eq_true_2 by done.
    rewrite frame_get_key by done.
    rewrite <-join_path_snoc, <-ctx_path_cons.
    rewrite (IH (F :: C_out) fuel).
    2:{ by rewrite <-HC, <-app_assoc. }
    2:{ unfold fill in Hd. rewrite depth_Node in Hd.
        apply le_S_n in Hd. apply (depth_kids_le fuel) in Hd.
        apply Forall_app in Hd as [_ Hd]. by apply Forall_cons in Hd as [? _]. }
    2:{ intros l Hl. rewrite !not_elem_of_union. split; [|split].
        - rewrite elem_of_list_to_set. intros Hl'. apply (Hdis1 _ Hl').
          apply elem_of_app. by left.
        - intros ->%elem_of_singleton. done.
        - apply Hmemo. unfold locs.
          rewrite cells_fill_eq, fmap_cons, !fmap_app.
          apply list_elem_of_further, elem_of_app. right.
          apply elem_of_app. by left. }
    change (items_loop ?r ?s ?p ?ks [] ?m ?hh) with (Ok m hh).
    assert ((_modules (frame_cell F (Some (root_loc n')))).*1
            = (_modules (frame_cell F x)).*1) as ->.
    { by rewrite !frame_cell_keys. }
    rewrite (quiet_items fuel _ X conv h2 (f_after F))
      with (c := frame_cell F x); try done.
    + f_equal. unfold locs. rewrite cells_fill_eq, fmap_cons, !fmap_app.
      rewrite list_to_set_cons, !list_to_set_app_L. set_solver.
    + apply Forall_forall. intros [k ot] Hk. apply frame_get_after; [|done].
      by rewrite frame_cell_keys, <-(frame_cell_keys F (Some (root_loc n'))).
    + intros l Hl. rewrite !not_elem_of_union. split; [|split; [|split]].
      * rewrite elem_of_list_to_set. intros Hl'. by apply (Hdis2 _ Hl').
      * rewrite elem_of_list_to_set. intros Hl'. apply (Hdis1 _ Hl').
        apply elem_of_app. by right.
      * intros ->%elem_of_singleton. done.
      * apply Hmemo. unfold locs.
        rewrite cells_fill_eq, fmap_cons, !fmap_app.
        apply list_elem_of_further, elem_of_app. right.
        apply elem_of_app. by right.
Qed.

(** A path that does not go through the selected node resolves as
    before. *)
Lemma sm_walk C_in :
  forall C_out q,
    C_in ++ C_out = F0 :: C0 -> C_in ≠ [] ->
    ¬ ctx_path C_in `prefix_of` q ->
    answer (walk (Some (root_loc (plug C_in s0))) q h2)
    = answer (walk (Some (root_loc (plug C_in s0))) q h).
Proof.
  induction C_in as [|F C_in IH] using rev_ind;
    intros C_out q HC Hne Hnp; [done|].
  destruct (sm_step _ _ _ HC) as (HF & Hwfn & _ & (x & HF2 & Hx0 & Hx1) & Hside).
  rewrite plug_app.
  change (root_loc (plug [F] (plug C_in s0))) with (f_loc F).
  destruct Hwfn as [_ Hokn]. rewrite cells_fill_eq in Hokn.
  apply Forall_cons in Hokn as [[HndF _] _]. cbn [snd] in HndF.
  destruct q as [|k q]; [done|].
  rewrite !walk_cons.
  rewrite (get_modules_Some _ _ _ HF), (get_modules_Some _ _ _ HF2).
  rewrite ctx_path_snoc in Hnp.
  destruct (decide (k = f_key F)) as [->|Hk].
  - assert (NoDup (_modules (frame_cell F x)).*1) as HndF2.
    { by rewrite frame_cell_keys,
        <-(frame_cell_keys F (Some (root_loc (plug C_in s0)))). }
    rewrite !frame_get_key by done.
    destruct (decide (C_in = [])) as [->|HCne].
    + exfalso. apply Hnp. exists q. reflexivity.
    + rewrite (Hx1 HCne). apply (IH (F :: C_out)); [|done|].
      * by rewrite <-HC, <-app_assoc.
      * intros [q' ->]. apply Hnp. by exists q'.
  - rewrite (frame_get_other F x (Some (root_loc (plug C_in s0)))) by done.
    destruct (dict_get _ k) as [[l|]|] eqn:Hg; [| |done].
    + apply frame_get_inv in Hg as ([t|] & Hin' & [= ->]); [|done].
      assert (forall lc, lc ∈ cells t -> lc ∈ side_cells F) as Hsub.
      { intros lc Hlc. unfold side_cells. apply elem_of_app.
        destruct Hin'; [left|right]; by eapply kid_cells_elem. }
      apply walk_same.
      * apply Forall_forall. intros [l c] Hlc.
        by destruct (Hside l c (Hsub _ Hlc)) as (? & ? & ?).
      * apply Forall_forall. intros [l c] Hlc.
        by destruct (Hside l c (Hsub _ Hlc)) as (? & ? & ?).
    + rewrite !walk_None. by destruct q.
Qed.
End single_match.

(** ** From paths to contexts *)

Lemma kid_get_split (kids : list (string * option tree)) k ot :
  kid_get kids k = Some ot ->
  exists before after, kids = before ++ (k, ot) :: after.
Proof.
  induction kids as [|[k' ot'] kids IH]; simpl; [done|].
  case_decide as Hk.
  - intros [= ->]. subst k'. by exists [], kids.
  - intros (before & after & ->)%IH. by exists ((k', ot') :: before), after.
Qed.

Lemma kid_get_here (before after : list (string * option tree)) k ot :
  k ∉ before.*1 -> kid_get (before ++ (k, ot) :: after) k = Some ot.
Proof.
  induction before as [|[k' ot'] before IH]; simpl.
  - intros _. by rewrite decide_True.
  - intros [Hne Hk]%not_elem_of_cons. rewrite decide_False by done. auto.
Qed.

Lemma subtree_at_plug T p s :
  subtree_at T p = Some s -> exists C, T = plug C s /\ ctx_path C = p.
Proof.
  revert T. induction p as [|k p IH]; intros T.
  - intros [= ->]. by exists [].
  - simpl. destruct (kid_get (tkids T) k) as [[t'|]|] eqn:Hk; [|done..].
    intros (C & -> & <-)%IH.
    apply kid_get_split in Hk as (before & after & Hk).
    exists (C ++ [Frame (root_loc T) (tattrs T) before k after]).
    split; [|by rewrite ctx_path_snoc].
    rewrite plug_app. simpl. unfold fill. simpl.
    destruct T as [l a kids]. simpl in *. by subst kids.
Qed.

Lemma subtree_at_app T p q :
  subtree_at T (p ++ q) =
    match subtree_at T p with Some t => subtree_at t q | None => None end.
Proof.
  revert T. induction p as [|k p IH]; intros T; [done|].
  simpl. destruct (kid_get (tkids T) k) as [[t'|]|]; [|done..]. apply IH.
Qed.

Lemma subtree_at_ctx C s :
  wf (plug C s) -> subtree_at (plug C s) (ctx_path C) = Some s.
Proof.
  revert s. induction C as [|F C IH]; intros s Hwf; [done|].
  rewrite ctx_path_cons, subtree_at_app. simpl plug in *.
  rewrite (IH _ Hwf). simpl.
  apply wf_plug_inner in Hwf as [_ Hok]. rewrite cells_fill_eq in Hok.
  apply Forall_cons in Hok as [[Hnd _] _].
  apply frame_keys_split in Hnd as (Hb & _).
  by rewrite kid_get_here.
Qed.

Lemma single_matching X C s :
  wf (plug C s) ->
  matching X (plug C s) = [(root_loc s, cell_of s)] ->
  matches X (cell_of s) = true /\
  Forall (fun lc : loc * nn_Module => matches X lc.2 = false)
         (ctx_cells C (root_loc s)) /\
  Forall (fun lc : loc * nn_Module => matches X lc.2 = false)
         (kid_cells (tkids s)).
Proof.
  intros [Hnd _] Hm. unfold locs in Hnd.
  rewrite cells_plug, cells_root, fmap_app, fmap_cons in Hnd.
  apply NoDup_app in Hnd as (_ & Hdis & Hnd).
  apply NoDup_cons in Hnd as [Hroot _].
  assert (forall lc, lc ∈ cells (plug C s) -> matches X lc.2 = true ->
            lc = (root_loc s, cell_of s)) as Honly.
  { intros lc Hlc Hmt.
    assert (lc ∈ matching X (plug C s)) as Hin
      by (by apply list_elem_of_filter).
    rewrite Hm in Hin. by apply list_elem_of_singleton in Hin. }
  split; [|split].
  - assert ((root_loc s, cell_of s) ∈ matching X (plug C s)) as Hin
      by (rewrite Hm; apply list_elem_of_here).
    by apply list_elem_of_filter in Hin as [? _].
  - apply Forall_forall. intros [l c] Hlc. apply not_true_is_false.
    intros Hmt. simpl in Hmt.
    assert ((l, c) = (root_loc s, cell_of s)) as [= -> ->].
    { apply Honly; [|done]. rewrite cells_plug. apply elem_of_app. by left. }
    apply (Hdis (root_loc s)).
    + apply list_elem_of_fmap. by exists (root_loc s, cell_of s).
    + apply list_elem_of_here.
  - apply Forall_forall. intros [l c] Hlc. apply not_true_is_false.
    intros Hmt. simpl in Hmt.
    assert ((l, c) = (root_loc s, cell_of s)) as [= -> ->].
    { apply Honly; [|done]. rewrite cells_plug, cells_root.
      apply elem_of_app. right. by apply list_elem_of_further. }
    apply Hroot. apply list_elem_of_fmap. by exists (root_loc s, cell_of s).
Qed.

(** C5, as the code has it: in a tree whose only selected node is at the
    path [p], below the root, and with a converter that answers [v] there
    and leaves the cells of the tree alone, the call returns the root it was
    given; the heap is the converter's, with [v] stored under the last name
    of [p] in the parent's [_modules]; [p] now leads to [v]; every path that
    does not go through [p] leads where it led before, and every cell of the
    tree but the parent's is as it was.  A path that continues below [p]
    is resolved inside [v]. *)
Theorem single_match_replaced T p s0 (h : heap) X conv fuel v h1 :
  in_heap h T -> wf T -> depth T ≤ fuel ->
  p ≠ [] ->
  subtree_at T p = Some s0 ->
  matching X T = [(root_loc s0, cell_of s0)] ->
  conv (Some (root_loc s0)) h = Ok v h1 ->
  (forall l, l ∈ locs T -> h1 !! l = h !! l) ->
  exists sP h2,
    subtree_at T (init_names p) = Some sP /\
    h2 = <[root_loc sP :=
             {| fields := tattrs sP;
                _modules := dict_set (_modules (cell_of sP)) (last_name p) v |}]>
           h1 /\
    replace_all_modules fuel (Some (root_loc T)) X conv h
    = Ok (Some (root_loc T)) h2 /\
    walk (Some (root_loc T)) p h2 = Ok v h2 /\
    (forall q, ¬ p `prefix_of` q ->
       answer (walk (Some (root_loc T)) q h2)
       = answer (walk (Some (root_loc T)) q h)) /\
    (forall l c, (l, c) ∈ cells T -> l ≠ root_loc sP -> h2 !! l = Some c).
Proof.
  intros Hin Hwf Hd Hp Hsub Hm Hconv Hpres.
  apply subtree_at_plug in Hsub as (C & -> & <-).
  destruct C as [|F0 C0]; [done|]. clear Hp.
  destruct (single_matching _ _ _ Hwf Hm) as (Hm0 & Hctx & Hkids).
  destruct (frame_facts _ _ _ _ Hin Hwf) as [HP [HndP _]].
  exists (fill F0 (Some s0)), (<[f_loc F0 := frame_cell F0 v]> h1).
  rewrite ctx_path_cons, init_names_snoc, last_name_snoc.
  split; [by apply (subtree_at_ctx C0 (fill F0 (Some s0)))|].
  split.
  { assert (cell_of (fill F0 (Some s0)) = frame_cell F0 (Some (root_loc s0)))
      as -> by apply frame_cell_fill.
    by rewrite frame_set_key. }
  split; [|split; [|split]].
  - destruct (exists_last (l := F0 :: C0)) as (C_in & F & HC); [done|].
    destruct (sm_step X h h1 v F0 C0 s0 Hin Hwf Hctx Hkids Hpres
                C_in F []) as (HF & _ & HmF & _).
    { by rewrite app_nil_r. }
    assert (root_loc (plug (F0 :: C0) s0) = f_loc F) as Hroot.
    { rewrite HC, plug_app. reflexivity. }
    unfold replace_all_modules, bind.
    rewrite Hroot, (isinstance_Some _ _ _ X HF). unfold matches in HmF |- *.
    rewrite HmF. rewrite <-Hroot.
    pose proof (sm_traverse X conv h h1 v F0 C0 s0 Hin Hwf Hm0 Hctx Hkids
                  Hconv Hpres (F0 :: C0) [] fuel ∅) as Htr.
    rewrite app_nil_r in Htr.
    change (join_path (ctx_path [])) with EmptyString in Htr.
    rewrite Htr; done.
  - rewrite walk_app.
    pose proof (sm_walk X h h1 v F0 C0 s0 Hin Hwf Hctx Hkids Hpres
                  (F0 :: C0) [] (ctx_path C0)) as Hw.
    rewrite app_nil_r in Hw.
    pose proof (walk_plug h C0 (fill F0 (Some s0)) Hin Hwf) as Hwp.
    change (plug C0 (fill F0 (Some s0))) with (plug (F0 :: C0) s0) in Hwp.
    rewrite Hwp in Hw. clear Hwp.
    rewrite (walk_answer_Ok _ _ _ (Some (f_loc F0))).
    + apply walk_step with (frame_cell F0 v); [apply lookup_insert_eq|].
      apply frame_get_key.
      by rewrite frame_cell_keys, <-(frame_cell_keys F0 (Some (root_loc s0))).
    + apply Hw; [done..|]. rewrite ctx_path_cons. intros [q Hq].
      apply (f_equal (@List.length string)) in Hq. rewrite !length_app in Hq. simpl in Hq. lia.
  - intros q Hq.
    pose proof (sm_walk X h h1 v F0 C0 s0 Hin Hwf Hctx Hkids Hpres
                  (F0 :: C0) [] q) as Hw.
    rewrite app_nil_r in Hw. apply Hw; [done..|]. by rewrite ctx_path_cons.
  - intros l c Hlc Hne. by apply sm_h2_other with (C0 := C0) (s0 := s0) (h := h).
Qed.

Lemma single_match_replaced_witness :
  let T := model_seq in
  let h := heap_of model_seq in
  let p := ["a"%string] in
  let conv : converter := fun _ => alloc Identity_obj in
  exists sP h2,
    subtree_at T (init_names p) = Some sP /\
    h2 = <[root_loc sP :=
             {| fields := tattrs sP;
                _modules := dict_set (_modules (cell_of sP)) (last_name p)
                              (Some 5%positive) |}]>
           (<[5%positive := Identity_obj]> h) /\
    replace_all_modules 3 (Some (root_loc T)) Sequential conv h
    = Ok (Some (root_loc T)) h2 /\
    walk (Some (root_loc T)) p h2 = Ok (Some 5%positive) h2 /\
    (forall q, ¬ p `prefix_of` q ->
       answer (walk (Some (root_loc T)) q h2)
       = answer (walk (Some (root_loc T)) q h)) /\
    (forall l c, (l, c) ∈ cells T -> l ≠ root_loc sP -> h2 !! l = Some c).
Proof.
  apply (single_match_replaced model_seq ["a"%string]
           (Node 2%positive (plain Sequential)
              [("b"%string, Some (Node 3%positive (plain Linear) []))])
           (heap_of model_seq) Sequential (fun _ => alloc Identity_obj) 3
           (Some 5%positive) (<[5%positive := Identity_obj]> (heap_of model_seq))).
  - apply (bool_decide_unpack _). vm_compute. exact I.
  - apply (bool_decide_unpack _). vm_compute. exact I.
  - vm_compute. lia.
  - discriminate.
  - reflexivity.
  - reflexivity.
  - reflexivity.
  - apply Forall_forall. apply (bool_decide_unpack _). vm_compute. exact I.
Defined.

(** C5 as stated fails for the paths below the selected node: with the
    single [Sequential] of [model_seq] at [a] replaced by an [Identity], the
    path [a.b], which led to the [Linear] child, no longer resolves. *)
Lemma paths_below_the_match_change :
  let h := heap_of model_seq in
  let conv : converter := fun _ => alloc Identity_obj in
  matching Sequential model_seq
  = [(2%positive,
      cell_of (Node 2%positive (plain Sequential)
                 [("b"%string, Some (Node 3%positive (plain Linear) []))]))] /\
  exists h2,
    replace_all_modules 3 (Some 1%positive) Sequential conv h
    = Ok (Some 1%positive) h2 /\
    answer (walk (Some 1%positive) ["a"; "b"]%string h)
    = Some (inl (Some 3%positive)) /\
    answer (walk (Some 1%positive) ["a"; "b"]%string h2)
    = Some (inr KeyError).
Proof.
  split; [reflexivity|]. eexists. split; [vm_compute; reflexivity|].
  split; reflexivity.
Qed.

(** ** Every selected node replaced by a new childless node *)

Lemma depth_kids_ge n (kids : list (string * option tree)) :
  Forall (fun kv => kid_depth depth kv ≤ n) kids ->
  max_list (kid_depth depth <$> kids) ≤ n.
Proof.
  induction 1 as [|kv kids Hkv _ IH]; [simpl; lia|].
  rewrite fmap_cons. simpl max_list. lia.
Qed.

(** Storing a fresh childless node in the hole of a context. *)
Lemma in_heap_swap (h : heap) F C s o :
  in_heap h (plug (F :: C) s) -> wf (plug (F :: C) s) ->
  _modules o = [] ->
  let l' := fresh (dom h) in
  let leaf := Node l' (fields o) [] in
  let h2 := <[f_loc F := frame_cell F (Some l')]> (<[l' := o]> h) in
  in_heap h2 (plug (F :: C) leaf) /\ wf (plug (F :: C) leaf) /\
  (forall l c, (l, c) ∈ cells s -> h2 !! l = Some c).
Proof.
  intros Hin Hwf Ho l' leaf h2.
  assert (cell_of leaf = o) as Hcell.
  { destruct o as [fo mo]. simpl in Ho. by subst mo. }
  apply in_heap_plug in Hin as [Hctx Hs].
  apply wf_plug in Hwf as (Hnd & Hokc & Hoks).
  rewrite ctx_cells_cons in Hctx, Hnd, Hokc.
  apply Forall_cons in Hctx as [HF Hctx]. apply Forall_cons in Hokc as [HokF Hokc].
  rewrite fmap_cons in Hnd. simpl in Hnd.
  apply NoDup_cons in Hnd as [HFn Hnd].
  apply NoDup_app in Hnd as (Hndc & Hdis & Hnds).
  assert (h !! l' = None) as Hfresh by apply fresh_lookup.
  assert (forall l c, h !! l = Some c -> l ≠ l') as Hold.
  { intros l c Hl ->. congruence. }
  assert (forall l c, h !! l = Some c -> l ≠ f_loc F -> h2 !! l = Some c)
    as Hkeep.
  { intros l c Hl Hne. unfold h2.
    rewrite lookup_insert_ne by done.
    rewrite lookup_insert_ne by (symmetry; by eapply Hold). done. }
  split; [|split].
  - apply in_heap_plug. split.
    + rewrite ctx_cells_cons. apply Forall_cons. split.
      * simpl. unfold h2. apply lookup_insert_eq.
      * apply Forall_forall. intros [l c] Hlc.
        rewrite Forall_forall in Hctx. pose proof (Hctx _ Hlc) as Hl.
        simpl in Hl |- *. apply Hkeep; [done|]. intros ->.
        apply HFn. apply elem_of_app. left.
        apply list_elem_of_fmap. by exists (f_loc F, c).
    + unfold in_heap. rewrite cells_root. simpl kid_cells.
      apply Forall_singleton. simpl fst. simpl snd. rewrite Hcell.
      unfold h2. rewrite lookup_insert_ne.
      * apply lookup_insert_eq.
      * simpl in HF. intros Heq. change (root_loc leaf) with l' in Heq.
        rewrite Heq in HF. congruence.
  - apply wf_plug. rewrite ctx_cells_cons. split; [|split].
    + rewrite fmap_cons. simpl. apply NoDup_cons. split.
      * rewrite not_elem_of_app. split.
        -- intros Hin'. apply HFn. apply elem_of_app. by left.
        -- unfold locs. rewrite cells_root. simpl.
           intros Hin'%list_elem_of_singleton.
           simpl in HF. rewrite Hin' in HF. congruence.
      * apply NoDup_app. split; [done|]. split.
        -- intros l Hl. unfold locs. rewrite cells_root. simpl.
           intros Heq%list_elem_of_singleton.
           apply list_elem_of_fmap in Hl as ([l0 c] & Hl0 & Hlc).
           rewrite Forall_forall in Hctx. pose proof (Hctx _ Hlc) as Hl'.
           simpl in Hl', Hl0. apply (Hold l0 c Hl'). congruence.
        -- unfold locs. rewrite cells_root. simpl. apply NoDup_singleton.
    + apply Forall_cons. split; [|done].
      destruct HokF as [Hn Hv]. unfold cell_ok. cbn [snd] in Hn, Hv |- *.
      by rewrite frame_cell_keys, <-(frame_cell_keys F (Some (root_loc s))).
    + rewrite cells_root. simpl kid_cells. apply Forall_singleton.
      simpl. split; [apply NoDup_nil_2|constructor].
  - intros l c Hlc. unfold in_heap in Hs. rewrite Forall_forall in Hs.
    pose proof (Hs _ Hlc) as Hl. simpl in Hl. apply Hkeep; [done|].
    intros ->. apply HFn. apply elem_of_app. right.
    apply list_elem_of_fmap. by exists (f_loc F, c).
Qed.

Section leaf_converter.
Context (X : Class) (o : nn_Module).
Hypothesis Ho : _modules o = [].
Hypothesis Hq : matches X o = false.

Local Abbreviation conv := (fun _ : value => alloc o).
Local Abbreviation quiet :=
  (Forall (fun lc : loc * nn_Module => matches X lc.2 = false)).



End leaf_converter.

(** ** [nullify_batchnorm_modules] *)

Lemma quiet_matching X t :
  Forall (fun lc : loc * nn_Module => matches X lc.2 = false) (cells t) ->
  matching X t = [].
Proof.
  intros Hq. unfold matching.
  induction (cells t) as [|lc cs IH]; [done|].
  apply Forall_cons in Hq as [Hlc Hq].
  rewrite filter_cons_False by (rewrite Hlc; done). by apply IH.
Qed.




(** The pass on the model of the specification's scenario, and on a model
    with a batch-norm node below a batch-norm node. *)
Example nullify_two_bn :
  answer (nullify_batchnorm_modules 3 (Some 1%positive) _BatchNorm
            (heap_of model_two_bn))
  = Some (inl (Some 1%positive)).
Proof. reflexivity. Qed.

Example nullify_nested_raises :
  answer (nullify_batchnorm_modules 3 (Some 1%positive) _BatchNorm
            (heap_of model_nested))
  = Some (inr KeyError).
Proof. reflexivity. Qed.

(** The scenario of the specification: both batch-norm nodes of
    [root{a: BN(10), b{c: BN(20)}}] become group-norm nodes. *)
Example replace_batchnorm_scenario :
  exists h',
    replace_batchnorm 3 (Some 1%positive) (heap_of model_two_bn)
    = Ok (Some 1%positive) h' /\
    in_heap h'
      (Node 1%positive (plain Sequential)
         [("a"%string,
           Some (Node 5%positive (fields (GroupNorm_obj 10 10 false)) []));
          ("b"%string,
           Some (Node 3%positive (plain Sequential)
                   [("c"%string,
                     Some (Node 6%positive
                             (fields (GroupNorm_obj 20 20 false)) []))]))]).
Proof.
  eexists. split; [vm_compute; reflexivity|].
  apply (bool_decide_unpack _). vm_compute. exact I.
Qed.

(** Outside the tree model the memo of [named_modules] shows: a module
    object registered under two names is yielded once, so one pass replaces
    it under the first name only and a second pass still finds it. *)
Example shared_module_needs_two_passes :
  exists h1 h2,
    nullify_batchnorm_modules 2 (Some 1%positive) _BatchNorm heap_shared
    = Ok (Some 1%positive) h1 /\
    nullify_batchnorm_modules 2 (Some 1%positive) _BatchNorm h1
    = Ok (Some 1%positive) h2 /\
    (_modules <$> h1 !! 1%positive)
    = Some [("a"%string, Some 3%positive); ("b"%string, Some 2%positive)] /\
    (_modules <$> h2 !! 1%positive)
    = Some [("a"%string, Some 3%positive); ("b"%string, Some 4%positive)].
Proof.
  eexists _, _. split; [vm_compute; reflexivity|].
  split; [vm_compute; reflexivity|]. split; reflexivity.
Qed.

(** * Further properties of the code *)

(** ** What a pass keeps, whatever the object graph *)

Lemma stable_refl (h : heap) : stable h h.
Proof. intros l c Hl. by exists c. Qed.

Lemma stable_trans (h1 h2 h3 : heap) :
  stable h1 h2 -> stable h2 h3 -> stable h1 h3.
Proof.
  intros H12 H23 l c Hl.
  destruct (H12 l c Hl) as (c2 & Hl2 & Hf2 & Hk2).
  destruct (H23 l c2 Hl2) as (c3 & Hl3 & Hf3 & Hk3).
  exists c3. split; [done|]. split; congruence.
Qed.

Lemma stable_alloc (h : heap) o : stable h (<[fresh (dom h) := o]> h).
Proof.
  intros l c Hl. exists c. split; [|done].
  rewrite alloc_frame; [done|]. apply elem_of_dom. by exists c.
Qed.

Lemma stable_store (h : heap) l c k v :
  h !! l = Some c -> k ∈ (_modules c).*1 ->
  stable h (<[l := {| fields := fields c;
                       _modules := dict_set (_modules c) k v |}]> h).
Proof.
  intros Hl Hk l0 c0 Hl0. destruct (decide (l0 = l)) as [->|Hne].
  - eexists. split; [apply lookup_insert_eq|].
    assert (c0 = c) as -> by congruence. simpl. split; [done|].
    by apply dict_set_keys.
  - exists c0. split; [|done]. by rewrite lookup_insert_ne.
Qed.

Lemma post_mono {A} (E E' : exn -> Prop) (h : heap) (o : outcome A) :
  (forall e, E e -> E' e) -> post E h o -> post E' h o.
Proof. intros HE. destruct o; simpl; [done| |done]. intros [? ?]. auto. Qed.

Lemma post_stable {A} (E : exn -> Prop) (h h' : heap) (o : outcome A) :
  stable h h' -> post E h' o -> post E h o.
Proof.
  intros Hs. destruct o; simpl; [| |done].
  - by apply stable_trans.
  - intros [? ?]. split; [|done]. by apply stable_trans with h'.
Qed.

Lemma post_bind {A B} (E : exn -> Prop) (m : M A) (k : A -> M B) (h : heap) :
  post E h (m h) ->
  (forall a h', m h = Ok a h' -> post E h' (k a h')) ->
  post E h (bind m k h).
Proof.
  intros Hm Hk. unfold bind. destruct (m h) as [a h'|e h'|f]; [|done..].
  apply post_stable with h'; [done|]. by apply Hk.
Qed.

Lemma dict_get_key (d : list (string * value)) k :
  k ∈ d.*1 -> is_Some (dict_get d k).
Proof.
  induction d as [|[k' v'] d IH]; simpl; [by intros ?%elem_of_nil|].
  intros Hk. case_decide; [by eexists|]. apply IH.
  apply elem_of_cons in Hk as [->|]; done.
Qed.

Lemma dict_get_is_key (d : list (string * value)) k v :
  dict_get d k = Some v -> k ∈ d.*1.
Proof.
  induction d as [|[k' v'] d IH]; simpl; [done|].
  case_decide as Hk.
  - intros _. subst k'. apply list_elem_of_here.
  - intros Hg. apply list_elem_of_further. by apply IH.
Qed.

Section traversal_keeps.
Context (E : exn -> Prop) (body : string -> loc -> M unit).
Hypothesis Hbody : forall p l (h : heap), post E h (body p l h).

Lemma items_loop_post rec self p keys todo :
  (forall child memo q (h : heap), post E h (rec child memo q h)) ->
  (forall k, k ∈ todo -> k ∈ keys) ->
  forall memo (h : heap),
    (forall c, h !! self = Some c -> (_modules c).*1 = keys) ->
    post E h (items_loop rec self p keys todo memo h).
Proof.
  intros Hrec. induction todo as [|k todo IH]; intros Hsub memo h Hkeys.
  { simpl. apply stable_refl. }
  assert (forall k', k' ∈ todo -> k' ∈ keys) as Hsub'.
  { intros k' Hk'. apply Hsub. by apply list_elem_of_further. }
  rewrite items_loop_cons. unfold get_modules, bind, deref, ret.
  destruct (h !! self) as [c|] eqn:Hself; [|done].
  rewrite bool_decide_eq_true_2 by (by apply Hkeys).
  destruct (dict_get_key (_modules c) k) as [v Hv].
  { rewrite (Hkeys c eq_refl). apply Hsub. apply list_elem_of_here. }
  rewrite Hv. destruct v as [child|].
  - pose proof (Hrec child memo (submodule_prefix p k) h) as Hr.
    destruct (rec child memo (submodule_prefix p k) h) as [memo' h'|e h'|f];
      [|done..].
    simpl in Hr. apply post_stable with h'; [done|].
    apply IH; [done|]. intros c' Hc'.
    destruct (Hr self c Hself) as (c'' & Hc'' & _ & Hk'').
    assert (c'' = c') as -> by congruence.
    rewrite Hk''. by apply Hkeys.
  - apply IH; [done|]. intros c' Hc'. rewrite Hself in Hc'. by apply Hkeys.
Qed.

Lemma named_modules_post fuel :
  forall self memo p (h : heap),
    post E h (named_modules_for fuel body self memo p h).
Proof.
  induction fuel as [|fuel IH]; intros self memo p h; [done|].
  rewrite named_modules_for_S. case_decide; [apply stable_refl|].
  pose proof (Hbody p self h) as Hb.
  destruct (body p self h) as [[] h'|e h'|f]; [|done..].
  simpl in Hb. apply post_stable with h'; [done|].
  unfold get_modules, bind, deref, ret.
  destruct (h' !! self) as [c|] eqn:Hself; [|done].
  apply items_loop_post; [done|done|].
  intros c' Hc'. congruence.
Qed.
End traversal_keeps.

Lemma walk_post v q (h : heap) : post lookup_error h (walk v q h).
Proof.
  revert v. induction q as [|k q IH]; intros v; [apply stable_refl|].
  rewrite walk_cons. destruct v as [l|].
  - unfold get_modules, bind, deref, ret. destruct (h !! l); [|done].
    destruct (dict_get _ k); [apply IH|].
    split; [apply stable_refl|by left].
  - split; [apply stable_refl|by right].
Qed.

Lemma replace_child_post (Ec : exn -> Prop) root name conv (h : heap) :
  (forall v (h0 : heap), post Ec h0 (conv v h0)) ->
  post (fun e => lookup_error e \/ Ec e) h (_replace_child root name conv h).
Proof.
  intros Hconv. unfold _replace_child.
  set (names := split_dot name).
  apply post_bind.
  { eapply post_mono; [|apply walk_post]. intros e He. by left. }
  intros parent h1 _. destruct parent as [l|].
  2:{ split; [apply stable_refl|]. left. by right. }
  unfold get_modules at 1, bind at 1, deref, bind, ret.
  destruct (h1 !! l) as [c|] eqn:Hl; [|done].
  unfold getitem.
  destruct (dict_get (_modules c) (last_name names)) as [old|] eqn:Hg.
  2:{ split; [apply stable_refl|]. left. by left. }
  unfold ret. pose proof (Hconv old h1) as Hc.
  destruct (conv old h1) as [new h2|e h2|f]; [| |done].
  - simpl in Hc. unfold setitem_modules, bind, deref.
    destruct (Hc l c Hl) as (c2 & Hl2 & _ & Hk2). rewrite Hl2.
    apply stable_trans with h2; [done|].
    apply stable_store; [done|]. rewrite Hk2. by eapply dict_get_is_key.
  - destruct Hc as [Hs He]. split; [done|]. by right.
Qed.

Lemma visit_post (Ec : exn -> Prop) root X conv p l (h : heap) :
  (forall v (h0 : heap), post Ec h0 (conv v h0)) ->
  post (fun e => lookup_error e \/ Ec e) h (visit root X conv p l h).
Proof.
  intros Hconv. unfold visit, isinstance, bind, deref, ret.
  destruct (h !! l) as [c|]; [|done].
  destruct (issubclass _ X); [by apply replace_child_post|apply stable_refl].
Qed.

Lemma replace_all_post (Ec : exn -> Prop) fuel root X conv (h : heap) :
  (forall v (h0 : heap), post Ec h0 (conv v h0)) ->
  post (fun e => lookup_error e \/ Ec e) h
       (replace_all_modules fuel root X conv h).
Proof.
  intros Hconv. unfold replace_all_modules.
  destruct root as [r|].
  - unfold isinstance, bind at 1, deref, bind at 1, ret.
    destruct (h !! r) as [c|]; [|done].
    destruct (issubclass _ X).
    + eapply post_mono; [|apply Hconv]. intros e He. by right.
    + apply post_bind; [|intros; apply stable_refl].
      apply named_modules_post. intros p l h0. by apply visit_post.
  - unfold isinstance, bind, ret, raise. split; [apply stable_refl|].
    left. by right.
Qed.

Lemma alloc_post (E : exn -> Prop) o (h : heap) : post E h (alloc o h).
Proof. apply stable_alloc. Qed.

Lemma get_num_features_pure v (h : heap) :
  match get_num_features v h with
  | Ok _ h' => h' = h
  | Raise e h' => h' = h /\ e = AttributeError
  | Abort _ => True
  end.
Proof.
  destruct v as [l|]; [|done].
  unfold get_num_features, bind, deref. destruct (h !! l) as [c|]; [|done].
  by destruct (num_features (fields c)).
Qed.

Lemma matchDim_pure v (h : heap) :
  match matchDim v h with
  | Ok _ h' => h' = h
  | Raise _ _ => False
  | Abort _ => True
  end.
Proof.
  destruct v as [l|]; [|done].
  destruct (h !! l) as [c|] eqn:Hl.
  - unfold matchDim, bind.
    rewrite (isinstance_Some _ _ _ BatchNorm1d Hl).
    destruct (matches BatchNorm1d c); [done|].
    rewrite (isinstance_Some _ _ _ BatchNorm2d Hl).
    destruct (matches BatchNorm2d c); [done|].
    rewrite (isinstance_Some _ _ _ BatchNorm3d Hl).
    by destruct (matches BatchNorm3d c).
  - unfold matchDim, isinstance, bind, deref. by rewrite Hl.
Qed.

Lemma batchnorm_to_groupnorm_post v (h : heap) :
  post (fun e => e = AttributeError) h (batchnorm_to_groupnorm v h).
Proof.
  unfold batchnorm_to_groupnorm, bind.
  pose proof (get_num_features_pure v h) as H1.
  destruct (get_num_features v h) as [c1 h1|e h1|f] eqn:Hg; [| |done].
  - subst h1. rewrite Hg. apply alloc_post.
  - destruct H1 as [-> ->]. split; [apply stable_refl|done].
Qed.

Lemma batchnorm_to_instancenorm_post v (h : heap) :
  post (fun e => e = AttributeError \/ e = TypeError) h
       (batchnorm_to_instancenorm v h).
Proof.
  unfold batchnorm_to_instancenorm, bind.
  pose proof (matchDim_pure v h) as H1.
  destruct (matchDim v h) as [cls h1|e h1|f]; [|done..].
  subst h1. pose proof (get_num_features_pure v h) as H2.
  destruct (get_num_features v h) as [c h2|e h2|f]; [| |done].
  - subst h2. destruct cls as [cls|]; [apply alloc_post|].
    split; [apply stable_refl|by right].
  - destruct H2 as [-> ->]. split; [apply stable_refl|by left].
Qed.

(** X1: whatever the object graph (children shared between parents and
    cycles included), and whether the call returns or raises, a call of
    [replace_all_modules] with a converter that keeps the objects of the
    heap keeps them too: no module object disappears, none has an attribute
    changed, and none gains, loses, renames or reorders a child name; only
    the values under existing names are assigned.  An exception is one of
    the converter, a [KeyError] or an [AttributeError]; so the dictionary
    iteration of [named_modules] does not fail with a [RuntimeError] for a
    dictionary that changed under it. *)
Theorem replace_all_modules_keeps (Ec : exn -> Prop) fuel root X conv
    (h : heap) :
  (forall v (h0 : heap), post Ec h0 (conv v h0)) ->
  (~ Ec RuntimeError) ->
  match replace_all_modules fuel root X conv h with
  | Ok _ h' => stable h h'
  | Raise e h' =>
      stable h h' /\ (e = KeyError \/ e = AttributeError \/ Ec e) /\
      e <> RuntimeError
  | Abort _ => True
  end.
Proof.
  intros Hconv Hrt. pose proof (replace_all_post Ec fuel root X conv h Hconv) as Hp.
  destruct (replace_all_modules fuel root X conv h) as [v h'|e h'|f];
    [done| |done].
  destruct Hp as [Hs He]. split; [done|]. split.
  - destruct He as [[?|?]|?]; auto.
  - intros ->. destruct He as [[?|?]|?]; [done..|]. by apply Hrt.
Qed.

Lemma replace_all_modules_keeps_witness :
  let conv : converter := fun _ => alloc Identity_obj in
  match replace_all_modules 2 (Some 1%positive) _BatchNorm conv heap_shared with
  | Ok _ h' => stable heap_shared h'
  | Raise e h' =>
      stable heap_shared h' /\ (e = KeyError \/ e = AttributeError \/ False) /\
      e <> RuntimeError
  | Abort _ => True
  end.
Proof.
  apply (replace_all_modules_keeps (fun _ => False) 2 (Some 1%positive)
           _BatchNorm (fun _ => alloc Identity_obj) heap_shared).
  - intros v h0. apply stable_alloc.
  - intros H. exact H.
Defined.

(** X2: [replace_batchnorm] and [nullify_batchnorm_modules] on any object
    graph: every module object that was there is still there with its
    attributes and its child names in their order, whether the call returns
    or raises, and the only exceptions are [KeyError] and
    [AttributeError]. *)
Theorem wrappers_keep_objects fuel root tc (h : heap) :
  post lookup_error h (replace_batchnorm fuel root h) /\
  post lookup_error h (nullify_batchnorm_modules fuel root tc h).
Proof.
  split.
  - eapply post_mono;
      [|apply (replace_all_post (fun e => e = AttributeError));
        apply batchnorm_to_groupnorm_post].
    intros e [He| ->]; [done|by right].
  - eapply post_mono;
      [|apply (replace_all_post (fun _ => False)); intros; apply alloc_post].
    intros e [He|[]]. done.
Qed.

(** ** [_replace_child] on its own *)

Lemma split_dot_cons_dot k rest :
  dotfree k = true ->
  split_dot (String.append k (String dot rest)) = k :: split_dot rest.
Proof.
  induction k as [|c k IH]; simpl.
  - intros _. try rewrite decide_True by done. done.
  - case_decide; [done|]. intros Hk. by rewrite IH.
Qed.

Lemma init_names_cons k (names : list string) :
  names ≠ [] -> init_names (k :: names) = k :: init_names names.
Proof. by destruct names. Qed.

Lemma last_name_cons k (names : list string) :
  names ≠ [] -> last_name (k :: names) = last_name names.
Proof. by destruct names. Qed.

(** X3: a name without a dot that is not a child name of [root] (the empty
    name that [named_modules] gives the root itself included) makes
    [_replace_child] raise [KeyError]: the converter is not called and
    nothing is stored, so the function never adds a child. *)
Theorem replace_child_no_such_child (h : heap) l c k conv :
  h !! l = Some c -> dotfree k = true -> k ∉ (_modules c).*1 ->
  _replace_child (Some l) k conv h = Raise KeyError h.
Proof.
  intros Hl Hk Hnot. unfold _replace_child.
  rewrite (split_dot_dotfree _ Hk). simpl. unfold bind, ret.
  rewrite (get_modules_Some _ _ _ Hl). unfold getitem.
  by rewrite dict_get_None.
Qed.

Lemma replace_child_no_such_child_witness :
  _replace_child (Some 1%positive) EmptyString (fun _ _ => Abort DanglingRef)
    (heap_of model_seq)
  = Raise KeyError (heap_of model_seq).
Proof.
  apply (replace_child_no_such_child (heap_of model_seq) 1%positive
           (cell_of model_seq) EmptyString).
  - reflexivity.
  - reflexivity.
  - apply (bool_decide_unpack _). vm_compute. exact I.
Defined.

(** X4: a dotted name that goes through a child registered as [None] makes
    [_replace_child] raise [AttributeError] (the [_modules] of [None]),
    with the converter not called and nothing stored. *)
Theorem replace_child_through_None (h : heap) l c k rest conv :
  h !! l = Some c -> dotfree k = true ->
  dict_get (_modules c) k = Some None ->
  _replace_child (Some l) (String.append k (String dot rest)) conv h
  = Raise AttributeError h.
Proof.
  intros Hl Hk Hg. unfold _replace_child.
  rewrite (split_dot_cons_dot _ _ Hk).
  rewrite init_names_cons, last_name_cons by apply split_dot_nonempty.
  unfold bind at 1. rewrite walk_cons, (get_modules_Some _ _ _ Hl), Hg.
  rewrite walk_None.
  by destruct (init_names (split_dot rest)).
Qed.

Lemma replace_child_through_None_witness :
  _replace_child (Some 1%positive) "a.b"%string (fun _ _ => Abort DanglingRef)
    (heap_of model_none)
  = Raise AttributeError (heap_of model_none).
Proof.
  apply (replace_child_through_None (heap_of model_none) 1%positive
           (cell_of model_none) "a"%string "b"%string).
  - reflexivity.
  - reflexivity.
  - reflexivity.
Defined.

(** Walking the path of a context needs the cells of the context only. *)
Lemma walk_ctx (h : heap) C :
  forall s,
    Forall (fun lc : loc * nn_Module => h !! lc.1 = Some lc.2)
           (ctx_cells C (root_loc s)) ->
    Forall (fun lc : loc * nn_Module => cell_ok lc.2)
           (ctx_cells C (root_loc s)) ->
    walk (Some (root_loc (plug C s))) (ctx_path C) h = Ok (Some (root_loc s)) h.
Proof.
  induction C as [|F C IH]; intros s Hin Hok; [done|].
  rewrite ctx_cells_cons in Hin, Hok.
  apply Forall_cons in Hin as [HF Hin]. apply Forall_cons in Hok as [[Hnd _] Hok].
  apply Forall_app in Hin as [_ Hin]. apply Forall_app in Hok as [_ Hok].
  rewrite ctx_path_cons, walk_app. simpl plug.
  rewrite (IH (fill F (Some s))) by done. simpl root_loc.
  apply walk_step with (frame_cell F (Some (root_loc s))); [done|].
  by apply frame_get_key.
Qed.

(** The parent of the hole after the converter's result was stored there:
    the path of the context leads to the result. *)
Lemma walk_stored (h h1 : heap) F C s new :
  in_heap h (plug (F :: C) s) -> wf (plug (F :: C) s) ->
  (forall l, l ∈ locs (plug (F :: C) s) -> h1 !! l = h !! l) ->
  let h2 := <[f_loc F := frame_cell F new]> h1 in
  walk (Some (root_loc (plug (F :: C) s))) (ctx_path (F :: C)) h2 = Ok new h2.
Proof.
  intros Hin Hwf Hpres h2.
  destruct (frame_facts _ _ _ _ Hin Hwf) as [HF [Hnd Hv]].
  simpl plug in *.
  pose proof Hin as Hin0. pose proof Hwf as Hwf0.
  apply in_heap_plug in Hin as [Hctx _].
  apply wf_plug in Hwf as (Hndl & Hokc & _).
  rewrite ctx_path_cons, walk_app.
  rewrite (walk_ctx h2 C (fill F (Some s))); [| |done].
  - simpl root_loc.
    apply walk_step with (frame_cell F new); [apply lookup_insert_eq|].
    apply frame_get_key.
    by rewrite frame_cell_keys, <-(frame_cell_keys F (Some (root_loc s))).
  - apply Forall_forall. intros [l c] Hlc. simpl.
    rewrite Forall_forall in Hctx. pose proof (Hctx _ Hlc) as Hl. simpl in Hl.
    assert (l ∈ (ctx_cells C (root_loc (fill F (Some s)))).*1) as Hl1.
    { apply list_elem_of_fmap. by exists (l, c). }
    unfold h2. rewrite lookup_insert_ne.
    + rewrite Hpres; [done|]. unfold locs. rewrite cells_plug, fmap_app.
      apply elem_of_app. by left.
    + intros <-. apply NoDup_app in Hndl as (_ & Hdis & _).
      apply (Hdis _ Hl1). unfold locs. rewrite cells_root, fmap_cons.
      apply list_elem_of_here.
Qed.

(** X5: on a tree, [_replace_child] with the dotted name of a node below the
    root calls the converter on that node and stores the result under the
    node's name in its parent, in the heap the converter left; after the
    call the same name resolves to the converter's result, and no other
    object has changed. *)
Theorem replace_child_round_trip T p s0 (h : heap) conv new h1 :
  in_heap h T -> wf T -> p ≠ [] ->
  subtree_at T p = Some s0 ->
  conv (Some (root_loc s0)) h = Ok new h1 ->
  (forall l, l ∈ locs T -> h1 !! l = h !! l) ->
  exists sP h2,
    subtree_at T (init_names p) = Some sP /\
    h2 = <[root_loc sP :=
             {| fields := tattrs sP;
                _modules := dict_set (_modules (cell_of sP)) (last_name p) new |}]>
           h1 /\
    _replace_child (Some (root_loc T)) (join_path p) conv h = Ok tt h2 /\
    walk (Some (root_loc T)) (split_dot (join_path p)) h2 = Ok new h2 /\
    (forall l, l ≠ root_loc sP -> h2 !! l = h1 !! l).
Proof.
  intros Hin Hwf Hp Hsub Hconv Hpres.
  apply subtree_at_plug in Hsub as (C & -> & <-).
  destruct C as [|F C]; [done|]. clear Hp.
  destruct (frame_facts _ _ _ _ Hin Hwf) as [HF [Hnd Hv]].
  assert (Forall valid_name (ctx_path (F :: C))) as Hval.
  { apply wf_plug in Hwf as (_ & Hok & _). by eapply ctx_path_valid. }
  exists (fill F (Some s0)), (<[f_loc F := frame_cell F new]> h1).
  split.
  { rewrite ctx_path_cons, init_names_snoc.
    by apply (subtree_at_ctx C (fill F (Some s0))). }
  split.
  { rewrite ctx_path_cons, last_name_snoc.
    assert (cell_of (fill F (Some s0)) = frame_cell F (Some (root_loc s0)))
      as -> by apply frame_cell_fill.
    by rewrite frame_set_key. }
  split; [|split].
  - rewrite (replace_child_plug _ _ _ _ _ Hin Hwf), Hconv.
    unfold setitem_modules, bind, deref.
    rewrite Hpres, HF.
    + by rewrite frame_set_key.
    + unfold locs. rewrite cells_plug, fmap_app. apply elem_of_app. left.
      rewrite ctx_cells_cons, fmap_cons. apply list_elem_of_here.
  - rewrite split_join; [|done|by rewrite ctx_path_cons; destruct (ctx_path C)].
    by apply (walk_stored h h1 F C s0 new).
  - intros l Hne. simpl root_loc in Hne. by rewrite lookup_insert_ne.
Qed.

Lemma replace_child_round_trip_witness :
  let T := model_seq in
  let h := heap_of model_seq in
  let p := ["a"%string; "b"%string] in
  let conv : converter := fun _ => alloc Identity_obj in
  exists sP h2,
    subtree_at T (init_names p) = Some sP /\
    h2 = <[root_loc sP :=
             {| fields := tattrs sP;
                _modules := dict_set (_modules (cell_of sP)) (last_name p)
                              (Some 5%positive) |}]>
           (<[5%positive := Identity_obj]> h) /\
    _replace_child (Some (root_loc T)) (join_path p) conv h = Ok tt h2 /\
    walk (Some (root_loc T)) (split_dot (join_path p)) h2
    = Ok (Some 5%positive) h2 /\
    (forall l, l ≠ root_loc sP ->
       h2 !! l = (<[5%positive := Identity_obj]> h) !! l).
Proof.
  apply (replace_child_round_trip model_seq ["a"%string; "b"%string]
           (Node 3%positive (plain Linear) [])
           (heap_of model_seq) (fun _ => alloc Identity_obj)
           (Some 5%positive) (<[5%positive := Identity_obj]> (heap_of model_seq))).
  - apply (bool_decide_unpack _). vm_compute. exact I.
  - apply (bool_decide_unpack _). vm_compute. exact I.
  - discriminate.
  - reflexivity.
  - reflexivity.
  - apply Forall_forall. apply (bool_decide_unpack _). vm_compute. exact I.
Defined.

(** X6: when the converter raises, [_replace_child] raises the same
    exception in the heap the converter left, and the parent keeps the old
    child: nothing is stored. *)
Theorem replace_child_converter_raises T p s0 (h : heap) conv e h1 :
  in_heap h T -> wf T -> p ≠ [] ->
  subtree_at T p = Some s0 ->
  conv (Some (root_loc s0)) h = Raise e h1 ->
  _replace_child (Some (root_loc T)) (join_path p) conv h = Raise e h1.
Proof.
  intros Hin Hwf Hp Hsub Hconv.
  apply subtree_at_plug in Hsub as (C & -> & <-).
  destruct C as [|F C]; [done|].
  by rewrite (replace_child_plug _ _ _ _ _ Hin Hwf), Hconv.
Qed.

Lemma replace_child_converter_raises_witness :
  _replace_child (Some 1%positive) "a.b"%string batchnorm_to_instancenorm
    (heap_of model_seq)
  = Raise AttributeError (heap_of model_seq).
Proof.
  apply (replace_child_converter_raises model_seq ["a"%string; "b"%string]
           (Node 3%positive (plain Linear) [])
           (heap_of model_seq) batchnorm_to_instancenorm AttributeError
           (heap_of model_seq)).
  - apply (bool_decide_unpack _). vm_compute. exact I.
  - apply (bool_decide_unpack _). vm_compute. exact I.
  - discriminate.
  - reflexivity.
  - reflexivity.
Defined.

(** ** A pass that replaces every selected node by a new childless node *)

Lemma ctx_cells_locs C l l' : (ctx_cells C l).*1 = (ctx_cells C l').*1.
Proof. destruct C as [|F C]; [done|]. by rewrite !ctx_cells_cons, !fmap_cons. Qed.

Lemma locs_plug C s l :
  l ∈ locs (plug C s) <-> l ∈ (ctx_cells C (root_loc s)).*1 \/ l ∈ locs s.
Proof. unfold locs. by rewrite cells_plug, fmap_app, elem_of_app. Qed.

Lemma locs_plug_swap C s s' l :
  l ∈ locs (plug C s') -> l ∈ locs (plug C s) \/ l ∈ locs s'.
Proof.
  rewrite !locs_plug. intros [Hl|Hl]; [|by right].
  left. left. by rewrite (ctx_cells_locs C _ (root_loc s')).
Qed.

Lemma unnested_Node X l a kids :
  unnested X (Node l a kids) =
    if issubclass (__class__ a) X
    then forallb (fun lc : loc * nn_Module => negb (matches X lc.2))
                 (kid_cells kids)
    else forallb (kid_all (unnested X)) kids.
Proof. reflexivity. Qed.

Lemma hits_forallb X cs :
  hits (matches X) cs <->
  forallb (fun lc : loc * nn_Module => negb (matches X lc.2)) cs = false.
Proof.
  unfold hits. induction cs as [|lc cs IH]; simpl.
  - split; [by intros ?%Exists_nil|done].
  - rewrite Exists_cons, IH. destruct (matches X lc.2); simpl; naive_solver.
Qed.

(** The three converters of the file answer a selected node with a new
    childless node that is not a batch-norm module. *)
Lemma groupnorm_of_conv (h : heap) l c o :
  h !! l = Some c -> matches _BatchNorm c = true -> groupnorm_of c = Some o ->
  batchnorm_to_groupnorm (Some l) h = alloc o h.
Proof.
  intros Hl _. unfold groupnorm_of.
  destruct (num_features (fields c)) as [n|] eqn:Hn; [|done].
  intros [= <-]. unfold batchnorm_to_groupnorm, bind.
  by rewrite !(get_num_features_Some _ _ _ _ Hl Hn).
Qed.

Lemma groupnorm_of_leaf c o :
  groupnorm_of c = Some o -> _modules o = [] /\ matches _BatchNorm o = false.
Proof.
  unfold groupnorm_of. destruct (num_features (fields c)); [|done].
  by intros [= <-].
Qed.

Lemma identity_of_conv (h : heap) (l : loc) (c o : nn_Module) :
  h !! l = Some c -> matches _BatchNorm c = true -> identity_of c = Some o ->
  (fun _ : value => alloc Identity_obj) (Some l) h = alloc o h.
Proof. by intros _ _ [= <-]. Qed.

Lemma identity_of_leaf c o :
  identity_of c = Some o -> _modules o = [] /\ matches _BatchNorm o = false.
Proof. by intros [= <-]. Qed.

Lemma identity_of_able T : convertible _BatchNorm identity_of T.
Proof. apply Forall_forall. intros lc _ _. by eexists. Qed.

Lemma instancenorm_of_conv (h : heap) l c o :
  h !! l = Some c -> matches _BatchNorm c = true -> instancenorm_of c = Some o ->
  batchnorm_to_instancenorm (Some l) h = alloc o h.
Proof.
  intros Hl _. unfold instancenorm_of.
  destruct (num_features (fields c)) as [n|] eqn:Hn; [|done].
  unfold batchnorm_to_instancenorm, bind.
  assert (forall cls, matchDim (Some l) h = Ok (Some cls) h ->
            Some (InstanceNorm_obj cls n) = Some o ->
            match matchDim (Some l) h with
            | Ok a h' =>
                match get_num_features (Some l) h' with
                | Ok a0 h'0 =>
                    match a with
                    | Some cls => alloc (InstanceNorm_obj cls a0)
                    | None => raise TypeError
                    end h'0
                | Raise e h'0 => Raise e h'0
                | Abort f => Abort f
                end
            | Raise e h' => Raise e h'
            | Abort f => Abort f
            end = alloc o h) as Hgo.
  { intros cls -> [= <-]. by rewrite (get_num_features_Some _ _ _ _ Hl Hn). }
  destruct (issubclass (__class__ (fields c)) BatchNorm1d) eqn:H1.
  { apply (Hgo InstanceNorm1d). by apply (matchDim_ranked h l c Rank1). }
  destruct (issubclass (__class__ (fields c)) BatchNorm2d) eqn:H2.
  { apply (Hgo InstanceNorm2d). by apply (matchDim_ranked h l c Rank2). }
  destruct (issubclass (__class__ (fields c)) BatchNorm3d) eqn:H3; [|done].
  apply (Hgo InstanceNorm3d). by apply (matchDim_ranked h l c Rank3).
Qed.

Lemma instancenorm_of_leaf c o :
  instancenorm_of c = Some o -> _modules o = [] /\ matches _BatchNorm o = false.
Proof.
  unfold instancenorm_of. destruct (num_features (fields c)); [|done].
  repeat (destruct (issubclass (__class__ (fields c)) _); [by intros [= <-]|]).
  done.
Qed.

Section allocating_converter.
Context (X : Class) (conv : converter) (mk : nn_Module -> option nn_Module).
Context (old : gset loc).
Hypothesis Hconv : forall (h : heap) l c o,
  h !! l = Some c -> matches X c = true -> mk c = Some o ->
  conv (Some l) h = alloc o h.
Hypothesis Hleaf : forall c o,
  mk c = Some o -> _modules o = [] /\ matches X o = false.

Local Abbreviation quiet_cells :=
  (Forall (fun lc : loc * nn_Module => matches X lc.2 = false)).
Local Abbreviation able_cells :=
  (Forall (fun lc : loc * nn_Module =>
             matches X lc.2 = true -> is_Some (mk lc.2))).
Local Abbreviation kid_rewritten :=
  (fun kv kv' : string * option tree =>
     kv.1 = kv'.1 /\ option_Forall2 (rewritten X mk old) kv.2 kv'.2).

(** Below a node that was replaced by a childless one, a selected node makes
    [_replace_child] fail, whatever the converter. *)
Lemma dead_visit_any (h : heap) C leaf p l c :
  in_heap h (plug C leaf) -> wf (plug C leaf) -> tkids leaf = [] ->
  (exists q, q ≠ [] /\ Forall valid_name q /\ p = join_path (ctx_path C ++ q)) ->
  h !! l = Some c ->
  visit (Some (root_loc (plug C leaf))) X conv p l h
  = if matches X c then Raise KeyError h else Ok tt h.
Proof.
  intros Hin Hwf Hleaf0 (q & Hne & Hv & ->) Hl.
  unfold visit, bind. rewrite (isinstance_Some _ _ _ X Hl).
  destruct (matches X c); [|done].
  by apply replace_child_dead.
Qed.

Lemma items_pass fuel C l a :
  passes X conv mk old fuel ->
  forall todo done (h : heap) memo keys,
    in_heap h (plug C (Node l a (done ++ todo))) ->
    wf (plug C (Node l a (done ++ todo))) ->
    (done ++ todo).*1 = keys ->
    Forall (fun kv => kid_depth depth kv ≤ fuel) (done ++ todo) ->
    quiet_cells (kid_cells done) ->
    (forall l', l' ∈ (kid_cells todo).*1 -> l' ∉ memo) ->
    able_cells (kid_cells todo) ->
    (forall l', l' ∈ old -> l' ∈ dom h) ->
    let res :=
      items_loop
        (named_modules_for fuel
           (visit (Some (root_loc (plug C (Node l a [])))) X conv))
        l (join_path (ctx_path C)) keys todo.*1 memo h in
    if forallb (kid_all (unnested X)) todo then
      exists h' kids',
        res = Ok (list_to_set (kid_cells todo).*1 ∪ memo) h' /\
        in_heap h' (plug C (Node l a (done ++ kids'))) /\
        wf (plug C (Node l a (done ++ kids'))) /\
        Forall2 kid_rewritten todo kids' /\
        Forall (fun kv => kid_depth depth kv ≤ fuel) (done ++ kids') /\
        quiet_cells (kid_cells kids') /\
        (forall l', l' ∈ dom h -> l' ∈ dom h') /\
        (forall l', l' ∈ dom h ->
           l' ∉ locs (plug C (Node l a (done ++ todo))) -> h' !! l' = h !! l') /\
        (forall l', l' ∈ locs (plug C (Node l a (done ++ kids'))) ->
           l' ∈ dom h -> l' ∈ locs (plug C (Node l a (done ++ todo))))
    else exists h', res = Raise KeyError h'.
Proof.
  intros Hpass todo.
  induction todo as [|[k ot] todo IH];
    intros done h memo keys Hin Hwf Hkeys Hdep Hdone Hmemo Hable Hold.
  { simpl. exists h, []. rewrite app_nil_r in *.
    split; [f_equal; set_solver|]. repeat (split; [done|]). done. }
  set (n := Node l a (done ++ (k, ot) :: todo)) in *.
  assert (in_heap h n) as Hn by (by apply in_heap_plug in Hin as [_ ?]).
  assert (h !! l = Some (cell_of n)) as Hl by exact (in_heap_root _ _ Hn).
  pose proof (wf_plug_inner _ _ Hwf) as [Hndn Hokn].
  unfold locs in Hndn. unfold n in Hndn, Hokn.
  rewrite cells_Node in Hndn, Hokn.
  apply Forall_cons in Hokn as [[Hndk _] _]. simpl in Hndk.
  rewrite entry_keys in Hndk.
  rewrite fmap_cons in Hndn. apply NoDup_cons in Hndn as [_ Hndn].
  rewrite kid_cells_app, fmap_app in Hndn.
  apply NoDup_app in Hndn as (_ & _ & Hndn).
  change (((k, ot) :: todo).*1) with (k :: todo.*1).
  cbv zeta.
  rewrite items_loop_cons, (get_modules_Some _ _ _ Hl).
  rewrite bool_decide_eq_true_2.
  2:{ simpl. by rewrite entry_keys. }
  simpl _modules. rewrite (dict_get_entry _ k ot Hndk).
  2:{ apply elem_of_app. right. apply list_elem_of_here. }
  assert (((done ++ [(k, ot)]) ++ todo) = done ++ (k, ot) :: todo) as Happ
    by (by rewrite <-app_assoc).
  destruct ot as [t|]; simpl forallb.
  - change (root_loc <$> Some t) with (Some (root_loc t)). cbv iota.
    set (F := Frame l a done k todo).
    assert (root_loc (plug C (Node l a [])) = root_loc (plug (F :: C) t))
      as Hroot by (simpl plug; by apply root_loc_plug).
    rewrite kid_cells_cons_Some, fmap_app in Hndn, Hmemo.
    rewrite kid_cells_cons_Some in Hable.
    apply Forall_app in Hable as [Hable1 Hable2].
    apply NoDup_app in Hndn as (_ & Hdis & _).
    assert (pass_result X mk old fuel (F :: C) t h memo
              (named_modules_for fuel
                 (visit (Some (root_loc (plug (F :: C) t))) X conv)
                 (root_loc t) memo (join_path (ctx_path (F :: C))) h)) as Ht.
    { apply Hpass; try done.
      - by apply Forall_app in Hdep as [_ [? _]%Forall_cons].
      - intros l' Hl'. apply Hmemo, elem_of_app. by left. }
    unfold pass_result in Ht. unfold kid_all at 1. simpl snd.
    rewrite Hroot, <-join_path_snoc.
    change (ctx_path C ++ [k]) with (ctx_path (F :: C)).
    destruct (unnested X t); simpl andb; cbv iota.
    2:{ destruct Ht as [h' ->]. by exists h'. }
    destruct Ht as (h' & t' & -> & Hin' & Hwf' & Hrw & Hq' & Hd' & Hroot'
                    & Hdom & Hframe & Hnew).
    rewrite <-Hroot.
    pose proof (IH (done ++ [(k, Some t')]) h'
                  (list_to_set (locs t) ∪ memo) keys) as IH'.
    cbv zeta in IH'.
    assert (((done ++ [(k, Some t')]) ++ todo) = done ++ (k, Some t') :: todo)
      as Happ' by (by rewrite <-app_assoc).
    rewrite Happ' in IH'.
    specialize (IH' Hin' Hwf').
    assert ((done ++ (k, Some t') :: todo).*1 = keys) as P3.
    { rewrite <-Hkeys, !fmap_app. done. }
    assert (Forall (fun kv => kid_depth depth kv ≤ fuel)
              (done ++ (k, Some t') :: todo)) as P4.
    { apply Forall_app in Hdep as [Hd1 Hd2].
      apply Forall_cons in Hd2 as [_ Hd2]. apply Forall_app. split; [done|].
      apply Forall_cons. split; [|done]. simpl. done. }
    assert (quiet_cells (kid_cells (done ++ [(k, Some t')]))) as P5.
    { rewrite kid_cells_app, kid_cells_cons_Some. simpl.
      rewrite app_nil_r. by apply Forall_app. }
    assert (forall l', l' ∈ (kid_cells todo).*1 ->
              l' ∉ list_to_set (locs t) ∪ memo) as P6.
    { intros l' Hl'. rewrite not_elem_of_union. split.
      - rewrite elem_of_list_to_set. intros Hl''. by apply (Hdis l').
      - apply Hmemo. apply elem_of_app. by right. }
    assert (forall l', l' ∈ old -> l' ∈ dom h') as P8 by auto.
    specialize (IH' P3 P4 P5 P6 Hable2 P8).
    destruct (forallb (kid_all (unnested X)) todo).
    2:{ destruct IH' as [h'' Hr]. exists h''. by rewrite Hr. }
    destruct IH' as (h'' & kids' & Hr & Hin'' & Hwf'' & Hrw' & Hd'' & Hq''
                     & Hdom' & Hframe' & Hnew').
    rewrite <-app_assoc in Hin'', Hwf'', Hd'', Hnew'. simpl app in *.
    exists h'', ((k, Some t') :: kids').
    split.
    { rewrite Hr. f_equal. rewrite kid_cells_cons_Some.
      rewrite fmap_app, list_to_set_app_L. unfold locs. set_solver. }
    split; [done|]. split; [done|]. split.
    { constructor; [|done]. split; [done|]. by constructor. }
    split; [done|]. split.
    { rewrite kid_cells_cons_Some. by apply Forall_app. }
    split; [auto|]. split.
    + intros l' Hl' Hout. rewrite Hframe'; [by apply Hframe|by apply Hdom|].
      intros Hin1. apply Hout. by apply Hnew.
    + intros l' Hl' Hdl. apply Hnew; [|done]. apply Hnew'; [done|]. by apply Hdom.
  - change (root_loc <$> @None tree) with (@None loc). cbv iota.
    rewrite kid_cells_cons_None in Hmemo, Hable.
    change (kid_all (unnested X) (k, None)) with true.
    change (true && forallb (kid_all (unnested X)) todo)
      with (forallb (kid_all (unnested X)) todo).
    pose proof (IH (done ++ [(k, None)]) h memo keys) as IH'.
    cbv zeta in IH'. rewrite Happ in IH'.
    assert (quiet_cells (kid_cells (done ++ [(k, None)]))) as P5.
    { rewrite kid_cells_app. simpl. by rewrite app_nil_r. }
    specialize (IH' Hin Hwf Hkeys Hdep P5 Hmemo Hable Hold).
    destruct (forallb (kid_all (unnested X)) todo).
    2:{ destruct IH' as [h'' Hr]. exists h''. by rewrite Hr. }
    destruct IH' as (h'' & kids' & Hr & Hin'' & Hwf'' & Hrw' & Hd'' & Hq''
                     & Hdom' & Hframe' & Hnew').
    rewrite <-app_assoc in Hin'', Hwf'', Hd'', Hnew'. simpl app in *.
    exists h'', ((k, None) :: kids').
    split; [by rewrite Hr|].
    split; [done|]. split; [done|]. split.
    { constructor; [|done]. split; [done|]. constructor. }
    split; [done|]. split; [by rewrite kid_cells_cons_None|].
    split; [done|]. split; done.
Qed.

Lemma passes_all fuel : passes X conv mk old fuel.
Proof.
  induction fuel as [|fuel IH];
    intros C [l a kids] h memo Hd Hin Hwf Hroot Hmemo Hable Hold.
  { rewrite depth_Node in Hd. lia. }
  set (s := Node l a kids) in *.
  assert (in_heap h s) as Hs by (by apply in_heap_plug in Hin as [_ ?]).
  assert (h !! l = Some (cell_of s)) as Hl by exact (in_heap_root _ _ Hs).
  pose proof (wf_plug_inner _ _ Hwf) as [Hnds Hoks].
  unfold locs in Hnds. unfold s in Hnds, Hoks.
  rewrite cells_Node in Hnds, Hoks.
  apply Forall_cons in Hoks as [[Hndk Hvk] Hoks]. simpl in Hndk, Hvk.
  rewrite entry_keys in Hndk, Hvk.
  rewrite fmap_cons in Hnds. apply NoDup_cons in Hnds as [Hlk Hnds].
  simpl in Hlk.
  unfold s in Hd. rewrite depth_Node in Hd.
  apply le_S_n, depth_kids_le in Hd.
  assert (l ∉ memo) as Hlm.
  { apply Hmemo. unfold locs, s. rewrite cells_Node, fmap_cons.
    apply list_elem_of_here. }
  assert (forall l', l' ∈ (kid_cells kids).*1 -> l' ∉ {[l]} ∪ memo) as Hmemo'.
  { intros l' Hl'. apply not_elem_of_union. split.
    - intros ->%elem_of_singleton. done.
    - apply Hmemo. unfold locs, s. rewrite cells_Node, fmap_cons.
      by apply list_elem_of_further. }
  unfold convertible in Hable. unfold s in Hable. rewrite cells_Node in Hable.
  apply Forall_cons in Hable as [Hable0 Hable].
  unfold pass_result. change (root_loc s) with l.
  rewrite named_modules_for_S, decide_False by done.
  unfold s at 1. rewrite unnested_Node.
  destruct (matches X (cell_of s)) eqn:Hm.
  - change (issubclass (__class__ a) X) with (matches X (cell_of s)).
    rewrite Hm.
    destruct C as [|F C]; [specialize (Hroot eq_refl); congruence|].
    destruct (Hable0 Hm) as [o Hmk].
    destruct (Hleaf _ _ Hmk) as [Ho Hqo].
    destruct (frame_facts _ _ _ _ Hin Hwf) as [HF [HndF _]].
    destruct (in_heap_swap h F C s o Hin Hwf Ho) as (Hin2 & Hwf2 & Hkeep).
    set (l' := fresh (dom h)) in *.
    set (leaf := Node l' (fields o) []) in *.
    set (h2 := <[f_loc F := frame_cell F (Some l')]> (<[l' := o]> h)) in *.
    assert (visit (Some (root_loc (plug (F :: C) s))) X conv
              (join_path (ctx_path (F :: C))) l h = Ok tt h2) as ->.
    { unfold visit, bind. rewrite (isinstance_Some _ _ _ X Hl), Hm.
      rewrite (replace_child_plug _ _ _ _ _ Hin Hwf).
      rewrite (Hconv h (root_loc s) _ o Hl Hm Hmk).
      unfold alloc, setitem_modules, bind, deref.
      rewrite lookup_insert_ne.
      2:{ intros Heq. pose proof (fresh_lookup h) as Hf.
          rewrite Heq in Hf. congruence. }
      rewrite HF. by rewrite frame_set_key. }
    assert (h2 !! l = Some (cell_of s)) as Hl2.
    { apply Hkeep. unfold s. rewrite cells_Node. apply list_elem_of_here. }
    rewrite (get_modules_Some _ _ _ Hl2).
    assert ((_modules (cell_of s)).*1 = kids.*1) as Hk by apply entry_keys.
    set (Q := fun p : string =>
                exists q, q ≠ [] /\ Forall valid_name q /\
                          p = join_path (ctx_path (F :: C) ++ q)).
    assert (forall p k, Q p -> valid_name k -> Q (submodule_prefix p k))
      as HQ.
    { intros p k (q & Hne & Hv & ->) Hvk'. exists (q ++ [k]).
      split; [by destruct q|]. split.
      - apply Forall_app. split; [done|]. by apply Forall_singleton.
      - by rewrite app_assoc, join_path_snoc. }
    assert (forall p l0 c, Q p -> h2 !! l0 = Some c -> True ->
              visit (Some (root_loc (plug (F :: C) s))) X conv p l0 h2 =
                if matches X c then Raise KeyError h2 else Ok tt h2)
      as Hbody.
    { intros p l0 c HQp Hl0 _.
      rewrite (root_loc_plug_cons F C s leaf). by apply dead_visit_any. }
    assert (items_loop
              (named_modules_for fuel
                 (visit (Some (root_loc (plug (F :: C) s))) X conv))
              l (join_path (ctx_path (F :: C))) (_modules (cell_of s)).*1
              (_modules (cell_of s)).*1 ({[l]} ∪ memo) h2
            = swept h2 KeyError (matches X) (kid_cells kids) ({[l]} ∪ memo))
      as ->.
    { rewrite Hk at 2.
      apply (items_sweep (visit (Some (root_loc (plug (F :: C) s))) X conv)
               h2 KeyError (matches X) Q (fun _ => True))
        with (c := cell_of s); try done.
      - by apply sweeps_all.
      - apply Forall_forall. intros [k ot] Hkin. by apply dict_get_entry.
      - apply Forall_forall. intros [l0 c] Hlc. apply Hkeep. unfold s.
        rewrite cells_Node. by apply list_elem_of_further.
      - by apply Forall_forall.
      - intros k Hvk'. exists [k]. split; [done|]. split.
        + by apply Forall_singleton.
        + by rewrite join_path_snoc. }
    unfold swept.
    destruct (decide (hits (matches X) (kid_cells kids))) as [Hh|Hh].
    + apply hits_forallb in Hh. rewrite Hh. by eexists.
    + rewrite hits_forallb in Hh. apply not_false_is_true in Hh.
      rewrite Hh.
      exists h2, leaf. split.
      { f_equal. unfold locs, s. rewrite cells_Node, fmap_cons. set_solver. }
      split; [done|]. split; [done|]. split.
      { unfold s, leaf. apply rewritten_hit; [exact Hm|exact Hmk|].
        intros Hin'. apply (fresh_not_in h). by apply Hold. }
      split.
      { unfold leaf. rewrite cells_Node. apply Forall_singleton. exact Hqo. }
      split; [unfold leaf; rewrite depth_Node; simpl; lia|].
      split; [apply root_loc_plug_cons|].
      split; [|split].
      * intros l0 Hl0. unfold h2. rewrite !dom_insert. set_solver.
      * intros l0 Hl0 Hout. unfold h2.
        rewrite lookup_insert_ne.
        -- by apply alloc_frame.
        -- intros <-. apply Hout. apply locs_plug. left.
           rewrite ctx_cells_cons, fmap_cons. apply list_elem_of_here.
      * intros l0 Hl0 Hdl.
        apply (locs_plug_swap (F :: C) s leaf) in Hl0 as [Hl0|Hl0]; [done|].
        unfold locs, leaf in Hl0. rewrite cells_Node in Hl0. simpl in Hl0.
        apply list_elem_of_singleton in Hl0. subst l0.
        by apply (fresh_not_in h) in Hdl.
  - change (issubclass (__class__ a) X) with (matches X (cell_of s)).
    rewrite Hm.
    rewrite (visit_no_match _ _ _ _ _ _ _ Hl Hm).
    rewrite (get_modules_Some _ _ _ Hl).
    assert ((_modules (cell_of s)).*1 = kids.*1) as Hk by apply entry_keys.
    rewrite Hk.
    rewrite (root_loc_plug C s (Node l a [])) by done.
    pose proof (items_pass fuel C l a IH kids [] h ({[l]} ∪ memo)
                  kids.*1) as Hit.
    cbv zeta in Hit. simpl app in Hit.
    specialize (Hit Hin Hwf eq_refl Hd ltac:(constructor)
                  Hmemo' Hable Hold).
    destruct (forallb (kid_all (unnested X)) kids).
    2:{ destruct Hit as [h' Hr]. by exists h'. }
    destruct Hit as (h' & kids' & Hr & Hin' & Hwf' & Hrw' & Hd' & Hq'
                     & Hdom' & Hframe' & Hnew').
    exists h', (Node l a kids'). split.
    { rewrite Hr. f_equal. unfold locs, s. rewrite cells_Node, fmap_cons.
      set_solver. }
    split; [done|]. split; [done|]. split.
    { unfold s. by apply rewritten_miss. }
    split.
    { rewrite cells_Node. apply Forall_cons. split; [|done]. exact Hm. }
    split; [rewrite depth_Node; apply le_n_S; by apply depth_kids_ge|].
    split; [by apply root_loc_plug|].
    split; [done|]. split; done.
Qed.
End allocating_converter.

(** [replace_all_modules] on a tree with an unselected root, for a converter
    that answers a selected node with a new childless node. *)
Lemma replace_all_pass X conv mk T (h : heap) fuel :
  (forall (h0 : heap) l c o,
     h0 !! l = Some c -> matches X c = true -> mk c = Some o ->
     conv (Some l) h0 = alloc o h0) ->
  (forall c o, mk c = Some o -> _modules o = [] /\ matches X o = false) ->
  in_heap h T -> wf T -> depth T ≤ fuel ->
  matches X (cell_of T) = false -> convertible X mk T ->
  if unnested X T then
    exists h' T',
      replace_all_modules fuel (Some (root_loc T)) X conv h
      = Ok (Some (root_loc T)) h' /\
      in_heap h' T' /\ wf T' /\ root_loc T' = root_loc T /\
      rewritten X mk (dom h) T T' /\
      Forall (fun lc : loc * nn_Module => matches X lc.2 = false) (cells T') /\
      depth T' ≤ fuel /\
      (forall l, l ∈ dom h -> l ∉ locs T -> h' !! l = h !! l)
  else
    exists h',
      replace_all_modules fuel (Some (root_loc T)) X conv h = Raise KeyError h'.
Proof.
  intros Hconv Hleaf Hin Hwf Hd Hm Hable.
  pose proof (in_heap_root _ _ Hin) as Hroot.
  pose proof (passes_all X conv mk (dom h) Hconv Hleaf fuel [] T h ∅ Hd Hin Hwf
                (fun _ => Hm) ltac:(set_solver) Hable ltac:(done)) as Hp.
  unfold pass_result in Hp.
  change (join_path (ctx_path [])) with EmptyString in Hp.
  change (plug [] T) with T in Hp.
  unfold replace_all_modules, bind.
  rewrite (isinstance_Some _ _ _ X Hroot), Hm.
  destruct (unnested X T).
  - destruct Hp as (h' & T' & Hr & Hin' & Hwf' & Hrw & Hq & Hd' & Hroot'
                    & _ & Hframe & _).
    change (plug [] T') with T' in Hin', Hwf', Hroot'.
    exists h', T'. rewrite Hr. done.
  - destruct Hp as [h' Hr]. exists h'. by rewrite Hr.
Qed.

(** X7: on a tree whose root is not selected and in which no selected node
    has a selected node below it, [replace_all_modules] with a converter
    that answers every selected node with a new childless, unselected node
    returns the root it was given; the heap then holds the rewritten tree:
    every selected node has given way to the converter's node at a new
    address, every other node is the same object with the same attributes
    and the same child names in the same order ([None] children stay
    [None]), no selected node is left, and no object outside the tree has
    changed. *)
Theorem replace_all_modules_rewrites X conv mk T (h : heap) fuel :
  (forall (h0 : heap) l c o,
     h0 !! l = Some c -> matches X c = true -> mk c = Some o ->
     conv (Some l) h0 = alloc o h0) ->
  (forall c o, mk c = Some o -> _modules o = [] /\ matches X o = false) ->
  in_heap h T -> wf T -> depth T ≤ fuel ->
  matches X (cell_of T) = false -> convertible X mk T ->
  unnested X T = true ->
  exists h' T',
    replace_all_modules fuel (Some (root_loc T)) X conv h
    = Ok (Some (root_loc T)) h' /\
    in_heap h' T' /\ wf T' /\ root_loc T' = root_loc T /\
    rewritten X mk (dom h) T T' /\
    matching X T' = [] /\
    (forall l, l ∈ dom h -> l ∉ locs T -> h' !! l = h !! l).
Proof.
  intros Hconv Hleaf Hin Hwf Hd Hm Hable Hu.
  pose proof (replace_all_pass X conv mk T h fuel Hconv Hleaf Hin Hwf Hd Hm
                Hable) as Hp.
  rewrite Hu in Hp.
  destruct Hp as (h' & T' & Hr & Hin' & Hwf' & Hroot' & Hrw & Hq & _ & Hfr).
  exists h', T'. repeat (split; [done|]). split; [|done].
  by apply quiet_matching.
Qed.

Lemma replace_all_modules_rewrites_witness :
  exists h' T',
    replace_all_modules 3 (Some 1%positive) _BatchNorm
      batchnorm_to_instancenorm (heap_of model_two_bn)
    = Ok (Some 1%positive) h' /\
    in_heap h' T' /\ wf T' /\ root_loc T' = 1%positive /\
    rewritten _BatchNorm instancenorm_of (dom (heap_of model_two_bn))
      model_two_bn T' /\
    matching _BatchNorm T' = [] /\
    (forall l, l ∈ dom (heap_of model_two_bn) -> l ∉ locs model_two_bn ->
       h' !! l = heap_of model_two_bn !! l).
Proof.
  apply (replace_all_modules_rewrites _BatchNorm batchnorm_to_instancenorm
           instancenorm_of model_two_bn (heap_of model_two_bn) 3).
  - exact instancenorm_of_conv.
  - exact instancenorm_of_leaf.
  - apply (bool_decide_unpack _). vm_compute. exact I.
  - apply (bool_decide_unpack _). vm_compute. exact I.
  - vm_compute. lia.
  - reflexivity.
  - apply (bool_decide_unpack _). vm_compute. exact I.
  - reflexivity.
Defined.

(** X8: on a tree whose root is not selected and in which some selected node
    has a selected node below it, [replace_all_modules] with such a
    converter raises [KeyError]: the outer node is replaced by a childless
    node first, the generator goes on into the children of the node that was
    replaced, and the dotted name of the inner node no longer resolves from
    the root. *)
Theorem replace_all_modules_nested_KeyError X conv mk T (h : heap) fuel :
  (forall (h0 : heap) l c o,
     h0 !! l = Some c -> matches X c = true -> mk c = Some o ->
     conv (Some l) h0 = alloc o h0) ->
  (forall c o, mk c = Some o -> _modules o = [] /\ matches X o = false) ->
  in_heap h T -> wf T -> depth T ≤ fuel ->
  matches X (cell_of T) = false -> convertible X mk T ->
  unnested X T = false ->
  exists h',
    replace_all_modules fuel (Some (root_loc T)) X conv h = Raise KeyError h'.
Proof.
  intros Hconv Hleaf Hin Hwf Hd Hm Hable Hu.
  pose proof (replace_all_pass X conv mk T h fuel Hconv Hleaf Hin Hwf Hd Hm
                Hable) as Hp.
  by rewrite Hu in Hp.
Qed.

Lemma replace_all_modules_nested_KeyError_witness :
  exists h',
    replace_all_modules 3 (Some 1%positive) _BatchNorm
      batchnorm_to_instancenorm (heap_of model_nested)
    = Raise KeyError h'.
Proof.
  apply (replace_all_modules_nested_KeyError _BatchNorm
           batchnorm_to_instancenorm instancenorm_of model_nested
           (heap_of model_nested) 3).
  - exact instancenorm_of_conv.
  - exact instancenorm_of_leaf.
  - apply (bool_decide_unpack _). vm_compute. exact I.
  - apply (bool_decide_unpack _). vm_compute. exact I.
  - vm_compute. lia.
  - reflexivity.
  - apply (bool_decide_unpack _). vm_compute. exact I.
  - reflexivity.
Defined.

(** X9: [replace_batchnorm] on a model tree whose root is not a batch-norm
    module and whose batch-norm modules have [num_features].  If no
    batch-norm module has a batch-norm module below it, the call returns the
    model it was given, in which every batch-norm module (of any subclass of
    [_BatchNorm]) has given way to a new [GroupNorm(min(32, c), c,
    affine=False)] for its channel count [c], every other module is the same
    object under the same name, no batch-norm module is left, and no object
    outside the model has changed.  Otherwise the call raises [KeyError]. *)
Theorem replace_batchnorm_rewrites T (h : heap) fuel :
  in_heap h T -> wf T -> depth T ≤ fuel ->
  matches _BatchNorm (cell_of T) = false ->
  convertible _BatchNorm groupnorm_of T ->
  if unnested _BatchNorm T then
    exists h' T',
      replace_batchnorm fuel (Some (root_loc T)) h
      = Ok (Some (root_loc T)) h' /\
      in_heap h' T' /\ wf T' /\ root_loc T' = root_loc T /\
      rewritten _BatchNorm groupnorm_of (dom h) T T' /\
      matching _BatchNorm T' = [] /\
      (forall l, l ∈ dom h -> l ∉ locs T -> h' !! l = h !! l)
  else
    exists h', replace_batchnorm fuel (Some (root_loc T)) h = Raise KeyError h'.
Proof.
  intros Hin Hwf Hd Hm Hable.
  pose proof (replace_all_pass _BatchNorm batchnorm_to_groupnorm groupnorm_of
                T h fuel groupnorm_of_conv groupnorm_of_leaf Hin Hwf Hd Hm
                Hable) as Hp.
  unfold replace_batchnorm. destruct (unnested _BatchNorm T); [|done].
  destruct Hp as (h' & T' & Hr & Hin' & Hwf' & Hroot' & Hrw & Hq & _ & Hfr).
  exists h', T'. repeat (split; [done|]). split; [|done].
  by apply quiet_matching.
Qed.

Lemma replace_batchnorm_rewrites_witness :
  exists h' T',
    replace_batchnorm 3 (Some 1%positive) (heap_of model_two_bn)
    = Ok (Some 1%positive) h' /\
    in_heap h' T' /\ wf T' /\ root_loc T' = 1%positive /\
    rewritten _BatchNorm groupnorm_of (dom (heap_of model_two_bn))
      model_two_bn T' /\
    matching _BatchNorm T' = [] /\
    (forall l, l ∈ dom (heap_of model_two_bn) -> l ∉ locs model_two_bn ->
       h' !! l = heap_of model_two_bn !! l).
Proof.
  apply (replace_batchnorm_rewrites model_two_bn (heap_of model_two_bn) 3).
  - apply (bool_decide_unpack _). vm_compute. exact I.
  - apply (bool_decide_unpack _). vm_compute. exact I.
  - vm_compute. lia.
  - reflexivity.
  - apply (bool_decide_unpack _). vm_compute. exact I.
Defined.

(** X10: [nullify_batchnorm_modules] on a model tree whose root is not a
    batch-norm module.  If no batch-norm module has a batch-norm module
    below it, the call returns the model it was given, in which every
    batch-norm module has given way to a new [Identity], every other module
    is the same object under the same name, and no object outside the model
    has changed.  Otherwise the call raises [KeyError]. *)
Theorem nullify_rewrites T (h : heap) fuel tc :
  in_heap h T -> wf T -> depth T ≤ fuel ->
  matches _BatchNorm (cell_of T) = false ->
  if unnested _BatchNorm T then
    exists h' T',
      nullify_batchnorm_modules fuel (Some (root_loc T)) tc h
      = Ok (Some (root_loc T)) h' /\
      in_heap h' T' /\ wf T' /\ root_loc T' = root_loc T /\
      rewritten _BatchNorm identity_of (dom h) T T' /\
      matching _BatchNorm T' = [] /\
      (forall l, l ∈ dom h -> l ∉ locs T -> h' !! l = h !! l)
  else
    exists h',
      nullify_batchnorm_modules fuel (Some (root_loc T)) tc h
      = Raise KeyError h'.
Proof.
  intros Hin Hwf Hd Hm.
  pose proof (replace_all_pass _BatchNorm (fun _ => alloc Identity_obj)
                identity_of T h fuel identity_of_conv identity_of_leaf
                Hin Hwf Hd Hm (identity_of_able T)) as Hp.
  unfold nullify_batchnorm_modules. destruct (unnested _BatchNorm T); [|done].
  destruct Hp as (h' & T' & Hr & Hin' & Hwf' & Hroot' & Hrw & Hq & _ & Hfr).
  exists h', T'. repeat (split; [done|]). split; [|done].
  by apply quiet_matching.
Qed.

Lemma nullify_rewrites_witness :
  exists h',
    nullify_batchnorm_modules 3 (Some 1%positive) Linear (heap_of model_nested)
    = Raise KeyError h'.
Proof.
  apply (nullify_rewrites model_nested (heap_of model_nested) 3 Linear).
  - apply (bool_decide_unpack _). vm_compute. exact I.
  - apply (bool_decide_unpack _). vm_compute. exact I.
  - vm_compute. lia.
  - reflexivity.
Defined.

(** One pass of [replace_batchnorm] over a tree: a [KeyError], or a tree
    without batch-norm nodes that the traversal has fuel for. *)
Lemma replace_batchnorm_pass T (h : heap) fuel :
  in_heap h T -> wf T -> depth T ≤ fuel ->
  convertible _BatchNorm groupnorm_of T ->
  (exists h', replace_batchnorm fuel (Some (root_loc T)) h = Raise KeyError h') \/
  (exists h' T',
      replace_batchnorm fuel (Some (root_loc T)) h
      = Ok (Some (root_loc T')) h' /\
      in_heap h' T' /\ wf T' /\ depth T' ≤ fuel /\
      Forall (fun lc : loc * nn_Module => matches _BatchNorm lc.2 = false)
             (cells T')).
Proof.
  intros Hin Hwf Hd Hable. unfold replace_batchnorm.
  pose proof (in_heap_root _ _ Hin) as Hroot.
  destruct (matches _BatchNorm (cell_of T)) eqn:Hm.
  - right. rewrite (replace_selected_root _ _ _ _ _ _ Hroot Hm).
    unfold convertible in Hable. rewrite cells_root in Hable.
    apply Forall_cons in Hable as [Hable _].
    destruct (Hable Hm) as [o Ho].
    rewrite (groupnorm_of_conv h _ _ o Hroot Hm Ho).
    destruct (groupnorm_of_leaf _ _ Ho) as [Hk Hq].
    exists (<[fresh (dom h) := o]> h), (Node (fresh (dom h)) (fields o) []).
    split; [done|]. split; [|split; [|split]].
    + apply Forall_singleton. simpl. rewrite lookup_insert_eq.
      f_equal. destruct o as [fo mo]. simpl in Hk. by subst mo.
    + split; [apply NoDup_singleton|]. apply Forall_singleton.
      split; [apply NoDup_nil_2|constructor].
    + destruct T. rewrite depth_Node in Hd. rewrite depth_Node. simpl. lia.
    + by apply Forall_singleton.
  - pose proof (replace_all_pass _BatchNorm batchnorm_to_groupnorm groupnorm_of
                  T h fuel groupnorm_of_conv groupnorm_of_leaf Hin Hwf Hd Hm
                  Hable) as Hp.
    destruct (unnested _BatchNorm T).
    + right.
      destruct Hp as (h' & T' & Hr & Hin' & Hwf' & Hroot' & Hrw & Hq & Hd' & _).
      exists h', T'. rewrite Hroot'. done.
    + by left.
Qed.

(** X11: on a model tree whose batch-norm modules have [num_features], a
    second [replace_batchnorm] over the result of a first one changes
    nothing: two calls in a row come to what one call comes to, an exception
    of the first call included; and a model the first call returns has no
    batch-norm module left. *)
Theorem replace_batchnorm_idempotent T (h : heap) fuel :
  in_heap h T -> wf T -> depth T ≤ fuel ->
  convertible _BatchNorm groupnorm_of T ->
  (let! r := replace_batchnorm fuel (Some (root_loc T)) in
   replace_batchnorm fuel r) h
  = replace_batchnorm fuel (Some (root_loc T)) h /\
  (forall r h',
     replace_batchnorm fuel (Some (root_loc T)) h = Ok r h' ->
     replace_batchnorm fuel r h' = Ok r h' /\
     exists T', r = Some (root_loc T') /\ in_heap h' T' /\ wf T' /\
                matching _BatchNorm T' = []) /\
  (forall f, replace_batchnorm fuel (Some (root_loc T)) h ≠ Abort f).
Proof.
  intros Hin Hwf Hd Hable.
  destruct (replace_batchnorm_pass T h fuel Hin Hwf Hd Hable)
    as [[h' Hr]|(h' & T' & Hr & Hin' & Hwf' & Hd' & Hq')].
  - split; [|split].
    + unfold bind. by rewrite Hr.
    + intros r h''. by rewrite Hr.
    + intros f. by rewrite Hr.
  - assert (replace_batchnorm fuel (Some (root_loc T')) h'
            = Ok (Some (root_loc T')) h') as Hsecond.
    { unfold replace_batchnorm. by apply quiet_replace. }
    split; [|split].
    + unfold bind. by rewrite Hr.
    + intros r h''. rewrite Hr. intros [= <- <-]. split; [done|].
      exists T'. split; [done|]. split; [done|]. split; [done|].
      by apply quiet_matching.
    + intros f. by rewrite Hr.
Qed.

Lemma replace_batchnorm_idempotent_witness :
  let T := model_two_bn in
  let h := heap_of model_two_bn in
  (let! r := replace_batchnorm 3 (Some (root_loc T)) in
   replace_batchnorm 3 r) h
  = replace_batchnorm 3 (Some (root_loc T)) h /\
  (forall r h',
     replace_batchnorm 3 (Some (root_loc T)) h = Ok r h' ->
     replace_batchnorm 3 r h' = Ok r h' /\
     exists T', r = Some (root_loc T') /\ in_heap h' T' /\ wf T' /\
                matching _BatchNorm T' = []) /\
  (forall f, replace_batchnorm 3 (Some (root_loc T)) h ≠ Abort f).
Proof.
  apply (replace_batchnorm_idempotent model_two_bn (heap_of model_two_bn) 3).
  - apply (bool_decide_unpack _). vm_compute. exact I.
  - apply (bool_decide_unpack _). vm_compute. exact I.
  - vm_compute. lia.
  - apply (bool_decide_unpack _). vm_compute. exact I.
Defined.

(** ** A container with shared children *)

(** The pass keeps the names of the dictionary, in their order. *)
Lemma once_keys X mk (h h' : heap) d :
  forall d' seen, replaced_once X mk h h' seen d d' -> d'.*1 = d.*1.
Proof.
  induction d as [|[k v] d IH]; intros [|[k' v'] d'] seen; simpl; try done.
  intros [-> Hon]. f_equal.
  destruct v as [l|]; destruct Hon as [_ Hon]; by eapply IH.
Qed.

(** An object the traversal has seen stays under every later name. *)
Lemma once_later X mk (h h' : heap) d :
  forall d' seen k l,
    replaced_once X mk h h' seen d d' -> l ∈ seen ->
    (k, Some l) ∈ d -> NoDup d.*1 ->
    dict_get d' k = Some (Some l).
Proof.
  induction d as [|[k0 v0] d IH]; intros d' seen k l Hr Hl Hin Hnd.
  { by apply elem_of_nil in Hin. }
  destruct d' as [|[k0' v0'] d']; [done|].
  simpl in Hr. destruct Hr as [-> Hr].
  rewrite fmap_cons in Hnd. apply NoDup_cons in Hnd as [Hk0 Hnd].
  apply elem_of_cons in Hin as [[= <- <-]|Hin].
  - destruct Hr as [Hv _]. rewrite decide_True in Hv by done. subst v0'.
    apply dict_get_here.
  - assert (k0 ≠ k) as Hne.
    { intros ->. apply Hk0. apply list_elem_of_fmap. by exists (k, Some l). }
    simpl. rewrite decide_False by done.
    destruct v0 as [l0|].
    + destruct Hr as [_ Hr]. apply (IH _ ({[l0]} ∪ seen)); try done.
      set_solver.
    + destruct Hr as [_ Hr]. by apply (IH _ seen).
Qed.

(** An object stays under the later of two names that hold it. *)
Lemma once_shared X mk (h h' : heap) before :
  forall d' seen k1 k2 l rest,
    replaced_once X mk h h' seen (before ++ (k1, Some l) :: rest) d' ->
    (k2, Some l) ∈ rest ->
    NoDup (before ++ (k1, Some l) :: rest).*1 ->
    dict_get d' k2 = Some (Some l).
Proof.
  induction before as [|[k0 v0] before IH];
    intros d' seen k1 k2 l rest Hr Hin Hnd.
  - simpl in Hr, Hnd. destruct d' as [|[k' v'] d']; [done|].
    simpl in Hr. destruct Hr as (-> & _ & Hr).
    apply NoDup_cons in Hnd as [Hk1 Hnd].
    assert (k1 ≠ k2) as Hne.
    { intros ->. apply Hk1. apply list_elem_of_fmap. by exists (k2, Some l). }
    simpl. rewrite decide_False by done.
    apply (once_later X mk h h' rest d' ({[l]} ∪ seen)); try done.
    set_solver.
  - destruct d' as [|[k' v'] d']; [done|].
    simpl in Hr. destruct Hr as [-> Hr].
    simpl in Hnd. apply NoDup_cons in Hnd as [Hk0 Hnd].
    assert (k0 ≠ k2) as Hne.
    { intros ->. apply Hk0. rewrite fmap_app, fmap_cons.
      apply elem_of_app. right. apply list_elem_of_further.
      apply list_elem_of_fmap. by exists (k2, Some l). }
    simpl. rewrite decide_False by done.
    destruct v0 as [l0|]; destruct Hr as [_ Hr]; by eapply IH.
Qed.

Section flat_container.
Context (X : Class) (conv : converter) (mk : nn_Module -> option nn_Module).
Context (h0 : heap) (r : loc) (a0 : attrs).
Hypothesis Hconv : forall (h : heap) l c o,
  h !! l = Some c -> matches X c = true -> mk c = Some o ->
  conv (Some l) h = alloc o h.

Local Abbreviation body := (visit (Some r) X conv).

(** A childless object the traversal has not seen and does not select. *)
Lemma flat_child_quiet fuel (h : heap) l c memo p :
  h !! l = Some c -> _modules c = [] -> matches X c = false -> l ∉ memo ->
  named_modules_for (S fuel) body l memo p h = Ok ({[l]} ∪ memo) h.
Proof.
  intros Hl Hk Hm Hmemo.
  rewrite named_modules_for_S, decide_False by done.
  rewrite (visit_no_match _ _ _ _ _ _ _ Hl Hm).
  rewrite (get_modules_Some _ _ _ Hl), Hk. done.
Qed.

(** [_replace_child] on a child of the container. *)
Lemma flat_replace (h : heap) done k l todo c o :
  h !! r = Some {| fields := a0; _modules := done ++ (k, Some l) :: todo |} ->
  k ∉ done.*1 -> dotfree k = true ->
  h !! l = Some c -> matches X c = true -> mk c = Some o ->
  _replace_child (Some r) k conv h =
    Ok tt (<[r := {| fields := a0;
                     _modules := done ++ (k, Some (fresh (dom h))) :: todo |}]>
             (<[fresh (dom h) := o]> h)).
Proof.
  intros Hr Hk Hdot Hl Hm Hmk. unfold _replace_child.
  rewrite (split_dot_dotfree _ Hdot). simpl. unfold bind at 1, ret at 1.
  unfold bind at 1. rewrite (get_modules_Some _ _ _ Hr). simpl _modules.
  unfold bind at 1, getitem.
  rewrite dict_get_app_r, dict_get_here by done. unfold ret at 1.
  unfold bind. rewrite (Hconv h l c o Hl Hm Hmk). unfold alloc.
  unfold setitem_modules, bind, deref.
  rewrite lookup_insert_ne.
  2:{ intros Heq. pose proof (fresh_lookup h) as Hf.
      rewrite Heq in Hf. congruence. }
  rewrite Hr. simpl.
  by rewrite dict_set_app_r, dict_set_here.
Qed.

Lemma flat_items fuel keys :
  forall todo done (h : heap) memo,
    h !! r = Some {| fields := a0; _modules := done ++ todo |} ->
    (done ++ todo).*1 = keys -> NoDup keys -> Forall valid_name todo.*1 ->
    r ∈ memo ->
    Forall (leaf_child X mk h0 r) todo ->
    (forall l, l ∈ dom h0 -> l ≠ r -> h !! l = h0 !! l) ->
    (forall l, l ∈ dom h0 -> l ∈ dom h) ->
    exists h' d' memo',
      items_loop (named_modules_for (S fuel) body) r EmptyString keys
        todo.*1 memo h = Ok memo' h' /\
      h' !! r = Some {| fields := a0; _modules := done ++ d' |} /\
      replaced_once X mk h0 h' memo todo d' /\
      (forall l, l ∈ dom h -> l ≠ r -> h' !! l = h !! l) /\
      (forall l, l ∈ dom h -> l ∈ dom h').
Proof.
  induction todo as [|[k v] todo IH];
    intros done h memo Hr Hkeys Hnd Hval Hrm Hleaves Hold Hdom.
  { exists h, [], memo. simpl. split; [done|]. split; [done|]. done. }
  apply Forall_cons in Hleaves as [Hleaf0 Hleaves].
  change (((k, v) :: todo).*1) with (k :: todo.*1) in *.
  apply Forall_cons in Hval as [[_ Hdot] Hval].
  assert (k ∉ done.*1) as Hk.
  { rewrite <-Hkeys, fmap_app, fmap_cons in Hnd.
    apply NoDup_app in Hnd as (_ & Hdis & _). intros Hin.
    apply (Hdis _ Hin). apply list_elem_of_here. }
  rewrite items_loop_cons, (get_modules_Some _ _ _ Hr). simpl _modules.
  rewrite bool_decide_eq_true_2 by done.
  rewrite dict_get_app_r, dict_get_here by done.
  rewrite submodule_prefix_empty.
  assert (forall v' (tl : list (string * value)),
            ((done ++ [(k, v')]) ++ tl) = done ++ (k, v') :: tl)
    as Happ by (intros; by rewrite <-app_assoc).
  destruct v as [l|].
  2:{ destruct (IH (done ++ [(k, None)]) h memo)
        as (h' & d' & memo' & Hres & Hr' & Hon & Hfr & Hdm); try done.
      - by rewrite Happ.
      - by rewrite Happ.
      - rewrite Happ in Hr'. exists h', ((k, None) :: d'), memo'.
        split; [done|]. split; [done|]. split; [|done]. simpl. done. }
  destruct (decide (l ∈ memo)) as [Hseen|Hnew].
  { rewrite named_modules_for_S, decide_True by done.
    destruct (IH (done ++ [(k, Some l)]) h memo)
      as (h' & d' & memo' & Hres & Hr' & Hon & Hfr & Hdm); try done.
    - by rewrite Happ.
    - by rewrite Happ.
    - rewrite Happ in Hr'. exists h', ((k, Some l) :: d'), memo'.
      split; [done|]. split; [done|]. split; [|done]. simpl.
      split; [done|]. rewrite decide_True by done. split; [done|].
      assert ({[l]} ∪ memo = memo) as -> by set_solver. done. }
  assert (l ≠ r) as Hlr by (intros ->; done).
  destruct (Hleaf0 Hlr) as (c & Hl0 & Hkids & Hable).
  assert (l ∈ dom h0) as Hld by (apply elem_of_dom; by exists c).
  assert (h !! l = Some c) as Hl by (by rewrite Hold).
  destruct (matches X c) eqn:Hm.
  - destruct (Hable eq_refl) as [o Hmk].
    set (l' := fresh (dom h)).
    set (h1 := <[l' := o]> h).
    set (h2 := <[r := {| fields := a0;
                         _modules := done ++ (k, Some l') :: todo |}]> h1).
    assert (l' ∉ dom h) as Hfresh by apply fresh_not_in.
    assert (l' ≠ r) as Hl'r.
    { intros Heq. apply Hfresh. rewrite Heq. apply elem_of_dom. by eexists. }
    assert (l' ≠ l) as Hl'l.
    { intros Heq. apply Hfresh. rewrite Heq. apply elem_of_dom. by eexists. }
    assert (forall l1, l1 ∈ dom h -> l1 ≠ r -> h2 !! l1 = h !! l1) as Hfr2.
    { intros l1 Hl1 Hne. unfold h2, h1.
      rewrite lookup_insert_ne by done. by apply alloc_frame. }
    assert (named_modules_for (S fuel) body l memo k h
            = Ok ({[l]} ∪ memo) h2) as ->.
    { rewrite named_modules_for_S, decide_False by done.
      unfold visit, bind at 1. rewrite (isinstance_Some _ _ _ X Hl), Hm.
      rewrite (flat_replace h done k l todo c o Hr Hk Hdot Hl Hm Hmk).
      assert (h2 !! l = Some c) as Hl2.
      { rewrite Hfr2; [done| |done]. apply elem_of_dom. by eexists. }
      change (<[r := {| fields := a0;
                        _modules := done ++ (k, Some (fresh (dom h))) :: todo |}]>
                (<[fresh (dom h) := o]> h)) with h2.
      rewrite (get_modules_Some _ _ _ Hl2), Hkids. done. }
    destruct (IH (done ++ [(k, Some l')]) h2 ({[l]} ∪ memo))
      as (h' & d' & memo' & Hres & Hr' & Hon & Hfr & Hdm); try done.
    + rewrite Happ. apply lookup_insert_eq.
    + rewrite Happ. rewrite <-Hkeys, !fmap_app. done.
    + set_solver.
    + intros l1 Hl1 Hne. rewrite Hfr2; auto.
    + intros l1 Hl1. unfold h2, h1. rewrite !dom_insert. set_solver.
    + rewrite Happ in Hr'. exists h', ((k, Some l') :: d'), memo'.
      split; [done|]. split; [done|]. split; [|split].
      * simpl. split; [done|]. rewrite decide_False by done.
        rewrite Hl0, Hm. split; [|done].
        exists l', o. split; [done|]. split; [by intros ?%Hdom|].
        split; [done|].
        rewrite Hfr; [|unfold h2, h1; rewrite !dom_insert; set_solver|done].
        unfold h2, h1. rewrite lookup_insert_ne by done.
        apply lookup_insert_eq.
      * intros l1 Hl1 Hne. rewrite Hfr; [by apply Hfr2| |done].
        unfold h2, h1. rewrite !dom_insert. set_solver.
      * intros l1 Hl1. apply Hdm. unfold h2, h1. rewrite !dom_insert.
        set_solver.
  - rewrite (flat_child_quiet fuel h l c memo k Hl Hkids Hm Hnew).
    destruct (IH (done ++ [(k, Some l)]) h ({[l]} ∪ memo))
      as (h' & d' & memo' & Hres & Hr' & Hon & Hfr & Hdm); try done.
    + by rewrite Happ.
    + by rewrite Happ.
    + set_solver.
    + rewrite Happ in Hr'. exists h', ((k, Some l) :: d'), memo'.
      split; [done|]. split; [done|]. split; [|done]. simpl.
      split; [done|]. rewrite decide_False by done.
      rewrite Hl0, Hm. done.
Qed.
End flat_container.

(** [replace_all_modules] on a container of childless objects. *)
Lemma flat_pass X conv mk (h : heap) r c0 fuel :
  (forall (h0 : heap) l c o,
     h0 !! l = Some c -> matches X c = true -> mk c = Some o ->
     conv (Some l) h0 = alloc o h0) ->
  h !! r = Some c0 -> matches X c0 = false -> cell_ok c0 ->
  Forall (leaf_child X mk h r) (_modules c0) ->
  2 ≤ fuel ->
  exists h' d',
    replace_all_modules fuel (Some r) X conv h = Ok (Some r) h' /\
    h' !! r = Some {| fields := fields c0; _modules := d' |} /\
    replaced_once X mk h h' {[r]} (_modules c0) d' /\
    (forall l, l ∈ dom h -> l ≠ r -> h' !! l = h !! l).
Proof.
  intros Hconv Hr Hm [Hnd Hval] Hleaves Hfuel.
  destruct fuel as [|[|fuel]]; [lia..|].
  destruct c0 as [a0 d]. simpl in *.
  destruct (flat_items X conv mk h r a0 Hconv fuel d.*1 d [] h ({[r]} ∪ ∅))
    as (h' & d' & memo' & Hres & Hr' & Hon & Hfr & _); try done.
  { set_solver. }
  exists h', d'. split; [|split; [done|split; [|done]]].
  - unfold replace_all_modules, bind.
    rewrite (isinstance_Some _ _ _ X Hr), Hm.
    rewrite named_modules_for_S, decide_False by set_solver.
    rewrite (visit_no_match _ _ _ _ _ _ _ Hr Hm).
    rewrite (get_modules_Some _ _ _ Hr). simpl _modules.
    by rewrite Hres.
  - by rewrite union_empty_r_L in Hon.
Qed.

(** X12: a container whose children are childless objects, some of them
    registered under several names (the container itself may be among its
    children); the converter answers a selected object with a new one.  The call returns the container; its dictionary has the
    names it had, in their order; a selected object has given way to a new
    one under the first name that holds it and is still there under every
    later name, because [named_modules] yields an object once; no other
    object of the heap has changed. *)
Theorem shared_children_replaced_once X conv mk (h : heap) r c0 fuel :
  (forall (h0 : heap) l c o,
     h0 !! l = Some c -> matches X c = true -> mk c = Some o ->
     conv (Some l) h0 = alloc o h0) ->
  h !! r = Some c0 -> matches X c0 = false -> cell_ok c0 ->
  Forall (leaf_child X mk h r) (_modules c0) ->
  2 ≤ fuel ->
  exists h' d',
    replace_all_modules fuel (Some r) X conv h = Ok (Some r) h' /\
    h' !! r = Some {| fields := fields c0; _modules := d' |} /\
    d'.*1 = (_modules c0).*1 /\
    replaced_once X mk h h' {[r]} (_modules c0) d' /\
    (forall l, l ∈ dom h -> l ≠ r -> h' !! l = h !! l).
Proof.
  intros Hconv Hr Hm Hok Hleaves Hfuel.
  destruct (flat_pass X conv mk h r c0 fuel Hconv Hr Hm Hok Hleaves Hfuel)
    as (h' & d' & Hres & Hr' & Hon & Hfr).
  exists h', d'. split; [done|]. split; [done|]. split; [|done].
  by eapply once_keys.
Qed.

Lemma shared_children_replaced_once_witness :
  exists h' d',
    replace_all_modules 2 (Some 1%positive) _BatchNorm batchnorm_to_groupnorm
      heap_twice = Ok (Some 1%positive) h' /\
    h' !! 1%positive = Some {| fields := plain Sequential; _modules := d' |} /\
    d'.*1 = ["0"; "1"; "2"]%string /\
    replaced_once _BatchNorm groupnorm_of heap_twice h' {[1%positive]}
      [("0"%string, Some 2%positive); ("1"%string, Some 3%positive);
       ("2"%string, Some 2%positive)] d' /\
    (forall l, l ∈ dom heap_twice -> l ≠ 1%positive ->
       h' !! l = heap_twice !! l).
Proof.
  apply (shared_children_replaced_once _BatchNorm batchnorm_to_groupnorm
           groupnorm_of heap_twice 1%positive
           {| fields := plain Sequential;
              _modules := [("0"%string, Some 2%positive);
                           ("1"%string, Some 3%positive);
                           ("2"%string, Some 2%positive)] |} 2).
  - exact groupnorm_of_conv.
  - reflexivity.
  - reflexivity.
  - apply (bool_decide_unpack _). vm_compute. exact I.
  - apply Forall_cons; split;
      [|apply Forall_cons; split; [|apply Forall_cons; split; [|constructor]]];
      intros _; eexists; (split; [reflexivity|]); (split; [reflexivity|]);
      first [intros _; by eexists | intros Hm; discriminate Hm].
  - lia.
Defined.

(** X13: a selected childless object that a container holds under two names
    is replaced under the first of them only: after the call the later name
    still leads to the object itself, unchanged, so one pass leaves a
    selected module in the model. *)
Theorem shared_child_survives X conv mk (h : heap) r c0 fuel
    before k1 mid k2 after l c :
  (forall (h0 : heap) l c o,
     h0 !! l = Some c -> matches X c = true -> mk c = Some o ->
     conv (Some l) h0 = alloc o h0) ->
  h !! r = Some c0 -> matches X c0 = false -> cell_ok c0 ->
  Forall (leaf_child X mk h r) (_modules c0) ->
  2 ≤ fuel ->
  _modules c0 = before ++ (k1, Some l) :: mid ++ (k2, Some l) :: after ->
  l ≠ r -> h !! l = Some c -> matches X c = true ->
  exists h',
    replace_all_modules fuel (Some r) X conv h = Ok (Some r) h' /\
    walk (Some r) [k2] h' = Ok (Some l) h' /\
    h' !! l = Some c /\
    isinstance (Some l) X h' = Ok true h'.
Proof.
  intros Hconv Hr Hm Hok Hleaves Hfuel Hd Hlr Hl Hml.
  destruct (flat_pass X conv mk h r c0 fuel Hconv Hr Hm Hok Hleaves Hfuel)
    as (h' & d' & Hres & Hr' & Hon & Hfr).
  assert (h' !! l = Some c) as Hl'.
  { rewrite Hfr; [done| |done]. apply elem_of_dom. by eexists. }
  exists h'. split; [done|]. split; [|split; [done|]].
  - eapply walk_step; [exact Hr'|]. simpl _modules.
    destruct Hok as [Hnd _]. rewrite Hd in Hon, Hnd.
    apply (once_shared X mk h h' before d' {[r]} k1 k2 l
             (mid ++ (k2, Some l) :: after)); try done.
    apply elem_of_app. right. apply list_elem_of_here.
  - by rewrite (isinstance_Some _ _ _ X Hl'), Hml.
Qed.

Lemma shared_child_survives_witness :
  exists h',
    replace_batchnorm 2 (Some 1%positive) heap_twice = Ok (Some 1%positive) h' /\
    walk (Some 1%positive) ["2"%string] h' = Ok (Some 2%positive) h' /\
    h' !! 2%positive = Some {| fields := norm BatchNorm2d 8; _modules := [] |} /\
    isinstance (Some 2%positive) _BatchNorm h' = Ok true h'.
Proof.
  apply (shared_child_survives _BatchNorm batchnorm_to_groupnorm
           groupnorm_of heap_twice 1%positive
           {| fields := plain Sequential;
              _modules := [("0"%string, Some 2%positive);
                           ("1"%string, Some 3%positive);
                           ("2"%string, Some 2%positive)] |} 2
           [] "0"%string [("1"%string, Some 3%positive)] "2"%string []
           2%positive {| fields := norm BatchNorm2d 8; _modules := [] |}).
  - exact groupnorm_of_conv.
  - reflexivity.
  - reflexivity.
  - apply (bool_decide_unpack _). vm_compute. exact I.
  - apply Forall_cons; split;
      [|apply Forall_cons; split; [|apply Forall_cons; split; [|constructor]]];
      intros _; eexists; (split; [reflexivity|]); (split; [reflexivity|]);
      first [intros _; by eexists | intros Hm; discriminate Hm].
  - lia.
  - reflexivity.
  - discriminate.
  - reflexivity.
  - reflexivity.
Defined.

(** ** The group count of [batchnorm_to_groupnorm] *)

(** X14: for a positive channel count [c], the node [batchnorm_to_groupnorm]
    builds has between 1 and 32 groups and never more groups than channels;
    the group count divides the channel count, as group normalisation needs
    it to, exactly when [c] is at most 32 or a multiple of 32. *)
Theorem groupnorm_groups_divide (h : heap) l o c :
  h !! l = Some o -> num_features (fields o) = Some c -> (0 < c)%Z ->
  exists o' g,
    batchnorm_to_groupnorm (Some l) h
    = Ok (Some (fresh (dom h))) (<[fresh (dom h) := o']> h) /\
    num_groups (fields o') = Some g /\ num_channels (fields o') = Some c /\
    (1 <= g <= 32)%Z /\ (g <= c)%Z /\
    ((c mod g = 0)%Z <-> (c <= 32)%Z \/ (c mod 32 = 0)%Z).
Proof.
  intros Hl Hc Hpos.
  exists (GroupNorm_obj (Z.min 32 c) c false), (Z.min 32 c).
  split.
  { unfold batchnorm_to_groupnorm, bind.
    by rewrite !(get_num_features_Some _ _ _ _ Hl Hc). }
  split; [done|]. split; [done|]. split; [lia|]. split; [lia|].
  destruct (Z.min_spec 32 c) as [[Hlt ->]|[Hle ->]].
  - split; [by right|]. intros [Hle|Hm]; [lia|done].
  - split; [by left|]. intros _. apply Z_mod_same_full.
Qed.

Lemma groupnorm_groups_divide_witness :
  let h := heap_of (Node 1%positive (norm BatchNorm2d 48) []) in
  exists o' g,
    batchnorm_to_groupnorm (Some 1%positive) h
    = Ok (Some (fresh (dom h))) (<[fresh (dom h) := o']> h) /\
    num_groups (fields o') = Some g /\ num_channels (fields o') = Some 48%Z /\
    (1 <= g <= 32)%Z /\ (g <= 48)%Z /\
    ((48 mod g = 0)%Z <-> (48 <= 32)%Z \/ (48 mod 32 = 0)%Z).
Proof.
  apply (groupnorm_groups_divide
           (heap_of (Node 1%positive (norm BatchNorm2d 48) [])) 1%positive
           (cell_of (Node 1%positive (norm BatchNorm2d 48) [])) 48).
  - reflexivity.
  - reflexivity.
  - lia.
Defined.
